(** * Smash OBS API: the stage ban/pick state machine of [server.js]

    A shallow embedding of the per-match phase state machine, its action
    handlers, the derived view sent to clients and the socket action
    dispatcher, followed by the properties proved about them.

    Conventions of the embedding:
    - a handler that mutates [state] in place is a function returning the
      result object together with the state after the call;
    - [matchStates] (a JS [Map]) is a [gmap string State];
    - values read off the wire ([stageId], [mode], [type], [matchId]) are
      [option string]: [None] is an absent ([undefined]) field;
    - [Date.now()] is the extra argument [now];
    - what the dispatcher emits is returned as a list of [Emit] values, in
      emission order ([console.log] lines are not modelled). *)

From stdpp Require Import gmap strings list fin_maps.
From Stdlib Require Import Ascii ZArith.

Set Warnings "-clear-no-such-hyp".
Set Default Proof Using "Type".

Local Open Scope string_scope.
Local Open Scope list_scope.
Local Open Scope Z_scope.

(** ** Data model *)

(** The [PHASES] constant object. *)
Inductive Phase : Set :=
| WINNER_BAN
| LOSER_BAN
| WINNER_PICK
| LOSER_PICK
| DONE.

#[global] Instance Phase_eq_dec : EqDecision Phase.
Proof. solve_decision. Defined.

(** The [action] tag of a history entry (and the [type] of an event). *)
Inductive ActionKind : Set :=
| BAN
| PICK
| FORCE_PHASE.

#[global] Instance ActionKind_eq_dec : EqDecision ActionKind.
Proof. solve_decision. Defined.

(** One element of [state.history]: [{action, stageId, prevPhase}]. A
    [FORCE_PHASE] entry is pushed without a [stageId]. *)
Record HistEntry : Set := mkEntry {
  action : ActionKind;
  stageId : option string;
  prevPhase : Phase
}.

#[global] Instance HistEntry_eq_dec : EqDecision HistEntry.
Proof. solve_decision. Defined.

(** The per-match state object built by [createInitialState]. [bans] and
    [history] are JS arrays: [push] appends at the end, [pop] takes the
    last element. [pick] is [null] ([None]) or a stage id. *)
Record State : Set := mkState {
  mode : string;
  phase : Phase;
  bans : list string;
  pick : option string;
  history : list HistEntry
}.

#[global] Instance State_eq_dec : EqDecision State.
Proof. solve_decision. Defined.

(** The error strings of the handlers, one constructor per message, with
    the interpolated value as argument. *)
Inductive Error : Set :=
| InvalidStage (id : option string)
| StageAlreadyBanned (id : option string)
| CannotBanInPhase (p : Phase)
| NoBansRemaining
| CannotPickBanned (id : option string)
| CannotPickInPhase (p : Phase)
| AlreadyPicked
| NothingToUndo
| InvalidMode (m : option string)
| CannotAdvancePhase
| UnknownAction (ty : option string).

#[global] Instance Error_eq_dec : EqDecision Error.
Proof. solve_decision. Defined.

(** The discrete event [{type, stageId, ts}] returned by a ban or a pick. *)
Record Event : Set := mkEvent {
  ev_type : ActionKind;
  ev_stageId : option string;
  ts : Z
}.

(** A handler's result object: [{ok, error?, event?, newState?}]. *)
Record Result : Set := mkResult {
  ok : bool;
  error : option Error;
  event : option Event;
  newState : option State
}.

Definition failure (e : Error) : Result :=
  {| ok := false; error := Some e; event := None; newState := None |}.

Definition success : Result :=
  {| ok := true; error := None; event := None; newState := None |}.

Definition success_event (ev : Event) : Result :=
  {| ok := true; error := None; event := Some ev; newState := None |}.

Definition success_newState (s : State) : Result :=
  {| ok := true; error := None; event := None; newState := Some s |}.

(** Field updates of the state object. *)
Definition set_phase (p : Phase) (s : State) : State :=
  {| mode := mode s; phase := p; bans := bans s; pick := pick s;
     history := history s |}.

Definition set_bans (b : list string) (s : State) : State :=
  {| mode := mode s; phase := phase s; bans := b; pick := pick s;
     history := history s |}.

Definition set_pick (p : option string) (s : State) : State :=
  {| mode := mode s; phase := phase s; bans := bans s; pick := p;
     history := history s |}.

Definition set_history (h : list HistEntry) (s : State) : State :=
  {| mode := mode s; phase := phase s; bans := bans s; pick := pick s;
     history := h |}.

(** JS truthiness of a value that is [null]/[undefined] or a string: the
    empty string is falsy. Used for [state.pick] and for [matchId]. *)
Definition truthy (v : option string) : bool :=
  match v with
  | Some s => negb (bool_decide (s = ""))
  | None => false
  end.

(** [Array.prototype.includes] on an array of strings. *)
Definition includes (l : list string) (id : string) : bool :=
  bool_decide (id ∈ l).

(** The name of a phase, as interpolated in messages. *)
Definition phase_name (p : Phase) : string :=
  match p with
  | WINNER_BAN => "WINNER_BAN"
  | LOSER_BAN => "LOSER_BAN"
  | WINNER_PICK => "WINNER_PICK"
  | LOSER_PICK => "LOSER_PICK"
  | DONE => "DONE"
  end.

Definition show (v : option string) : string :=
  match v with
  | Some s => s
  | None => "undefined"
  end.

(** The text of each error. *)
Definition error_message (e : Error) : string :=
  match e with
  | InvalidStage id => String.append "Invalid stage: " (show id)
  | StageAlreadyBanned id => String.append "Stage already banned: " (show id)
  | CannotBanInPhase p => String.append "Cannot ban in phase: " (phase_name p)
  | NoBansRemaining => "No bans remaining in this phase"
  | CannotPickBanned id => String.append "Cannot pick banned stage: " (show id)
  | CannotPickInPhase p => String.append "Cannot pick in phase: " (phase_name p)
  | AlreadyPicked => "Already picked"
  | NothingToUndo => "Nothing to undo"
  | InvalidMode m => String.append "Invalid mode: " (show m)
  | CannotAdvancePhase => "Cannot advance phase"
  | UnknownAction ty => String.append "Unknown action: " (show ty)
  end.

(** [createInitialState(mode = 'G1')]. *)
Definition createInitialState (m : option string) : State :=
  {| mode := default "G1" m;
     phase := WINNER_BAN;
     bans := [];
     pick := None;
     history := [] |}.

(** [getBansRemaining]; the subtraction is over the integers. *)
Definition getBansRemaining (state : State) : Z :=
  if decide (phase state = WINNER_BAN) then 3 - Z.of_nat (length (bans state))
  else if decide (mode state = "G1" ∧ phase state = LOSER_BAN)
       then 7 - Z.of_nat (length (bans state))
  else 0.

Definition getPicksRemaining (state : State) : Z :=
  if decide (phase state = WINNER_PICK ∨ phase state = LOSER_PICK)
  then (if truthy (pick state) then 0 else 1)
  else 0.

(** [advancePhase]: the quota-driven transition, in place. *)
Definition advancePhase (state : State) : State :=
  if decide (mode state = "G1") then
    if bool_decide (phase state = WINNER_BAN) && (3 <=? Z.of_nat (length (bans state)))
    then set_phase LOSER_BAN state
    else if bool_decide (phase state = LOSER_BAN) && (7 <=? Z.of_nat (length (bans state)))
    then set_phase WINNER_PICK state
    else if bool_decide (phase state = WINNER_PICK) && truthy (pick state)
    then set_phase DONE state
    else state
  else
    if bool_decide (phase state = WINNER_BAN) && (3 <=? Z.of_nat (length (bans state)))
    then set_phase LOSER_PICK state
    else if bool_decide (phase state = LOSER_PICK) && truthy (pick state)
    then set_phase DONE state
    else state.

(** The [transitions] table of [handleForceNextPhase]; a missing key is
    [undefined], here [None]. *)
Definition transitions (m : string) (p : Phase) : option Phase :=
  if decide (m = "G1") then
    match p with
    | WINNER_BAN => Some LOSER_BAN
    | LOSER_BAN => Some WINNER_PICK
    | WINNER_PICK => Some DONE
    | DONE => Some DONE
    | LOSER_PICK => None
    end
  else if decide (m = "G2PLUS") then
    match p with
    | WINNER_BAN => Some LOSER_PICK
    | LOSER_PICK => Some DONE
    | DONE => Some DONE
    | LOSER_BAN | WINNER_PICK => None
    end
  else None.

(** [handleUndo]: fails on an empty history, otherwise pops the last
    entry, reverts its data effect and restores the recorded phase. *)
Definition handleUndo (state : State) : Result * State :=
  match last (history state) with
  | None => (failure NothingToUndo, state)
  | Some lastAction =>
    let state := set_history (removelast (history state)) state in
    let state :=
      match action lastAction with
      | BAN => set_bans (filter (λ id, Some id ≠ stageId lastAction) (bans state)) state
      | PICK => set_pick None state
      | FORCE_PHASE => state
      end in
    (success, set_phase (prevPhase lastAction) state)
  end.

(** [handleSetMode]: does not touch [state]; the fresh state travels in
    the result. *)
Definition handleSetMode (state : State) (m : option string) : Result :=
  if decide (m ≠ Some "G1" ∧ m ≠ Some "G2PLUS") then failure (InvalidMode m)
  else success_newState (createInitialState m).

(** [handleForceNextPhase]. *)
Definition handleForceNextPhase (state : State) : Result * State :=
  match transitions (mode state) (phase state) with
  | None => (failure CannotAdvancePhase, state)
  | Some nextPhase =>
    if decide (nextPhase = phase state) then (failure CannotAdvancePhase, state)
    else
      let prev := phase state in
      let state := set_phase nextPhase state in
      let state :=
        set_history (history state ++ [mkEntry FORCE_PHASE None prev]) state in
      (success, state)
  end.

(** A sample catalog, after the stage table of the README (the ids name
    the image files); used to instantiate the theorems below. *)
Definition sample_stageIds : list string :=
  ["battlefield"; "small-battlefield"; "final-destination"; "smashville";
   "ps2"; "town-city"; "yoshis-story"; "hollow-bastion"; "kalos"].

(** Two sample states: game 1 after the winner's three bans, and a later
    game after three bans and the pick. *)
Definition sample_three_bans : State :=
  {| mode := "G1"; phase := LOSER_BAN;
     bans := ["battlefield"; "smashville"; "ps2"]; pick := None;
     history := [mkEntry BAN (Some "battlefield") WINNER_BAN;
                 mkEntry BAN (Some "smashville") WINNER_BAN;
                 mkEntry BAN (Some "ps2") WINNER_BAN] |}.

Definition sample_done : State :=
  {| mode := "G2PLUS"; phase := DONE;
     bans := ["battlefield"; "smashville"; "ps2"]; pick := Some "kalos";
     history := [mkEntry BAN (Some "battlefield") WINNER_BAN;
                 mkEntry BAN (Some "smashville") WINNER_BAN;
                 mkEntry BAN (Some "ps2") WINNER_BAN;
                 mkEntry PICK (Some "kalos") LOSER_PICK] |}.

Section Catalog.

(** [stageIds]: the ids of [data/stages.json], in file order. The file is
    loaded once at startup and never changes. *)
Variable stageIds : list string.

(** Every catalog id is a non-empty string, so that a picked id is truthy
    in the tests [if (state.pick)]; the ids of the README name image
    files. *)
Hypothesis stageIds_truthy : "" ∉ stageIds.

(** The catalog lists no id twice (the ids are unique keys). *)
Hypothesis stageIds_NoDup : NoDup stageIds.

(** [getAvailableStages]. *)
Definition getAvailableStages (state : State) : list string :=
  filter (λ id, includes (bans state) id = false) stageIds.

(** [handleBan]. An absent [stageId] is in no catalog. *)
Definition handleBan (now : Z) (state : State) (sid : option string)
  : Result * State :=
  match sid with
  | None => (failure (InvalidStage sid), state)
  | Some id =>
    if negb (includes stageIds id) then (failure (InvalidStage sid), state)
    else if includes (bans state) id then (failure (StageAlreadyBanned sid), state)
    else if decide (phase state ≠ WINNER_BAN ∧ phase state ≠ LOSER_BAN)
    then (failure (CannotBanInPhase (phase state)), state)
    else if getBansRemaining state <=? 0 then (failure NoBansRemaining, state)
    else
      let prev := phase state in
      let state := set_bans (bans state ++ [id]) state in
      let state := set_history (history state ++ [mkEntry BAN sid prev]) state in
      let state := advancePhase state in
      (success_event (mkEvent BAN sid now), state)
  end.

(** [handlePick]. *)
Definition handlePick (now : Z) (state : State) (sid : option string)
  : Result * State :=
  match sid with
  | None => (failure (InvalidStage sid), state)
  | Some id =>
    if negb (includes stageIds id) then (failure (InvalidStage sid), state)
    else if includes (bans state) id then (failure (CannotPickBanned sid), state)
    else if decide (phase state ≠ WINNER_PICK ∧ phase state ≠ LOSER_PICK)
    then (failure (CannotPickInPhase (phase state)), state)
    else if truthy (pick state) then (failure AlreadyPicked, state)
    else
      let prev := phase state in
      let state := set_pick sid state in
      let state := set_history (history state ++ [mkEntry PICK sid prev]) state in
      let state := advancePhase state in
      (success_event (mkEvent PICK sid now), state)
  end.

(** ** The store, the derived view and the dispatcher *)

(** [getState]: get-or-create in [matchStates]; a first reference stores a
    fresh default-mode state. *)
Definition getState (matchId : string) (matchStates : gmap string State)
  : State * gmap string State :=
  match matchStates !! matchId with
  | Some state => (state, matchStates)
  | None =>
    let state := createInitialState None in
    (state, <[matchId := state]> matchStates)
  end.

(** [handleReset]: stores a fresh state seeded with the current mode. *)
Definition handleReset (matchId : string) (matchStates : gmap string State)
  : Result * gmap string State :=
  let '(state, matchStates) := getState matchId matchStates in
  let fresh := createInitialState (Some (mode state)) in
  (success, <[matchId := fresh]> matchStates).

(** The object built by [getComputedState]. *)
Record ComputedState : Set := mkComputed {
  c_matchId : string;
  c_mode : string;
  c_phase : Phase;
  c_bans : list string;
  c_pick : option string;
  available : list string;
  bansRemaining : Z;
  picksRemaining : Z;
  canUndo : bool
}.

Definition computed (matchId : string) (state : State) : ComputedState :=
  {| c_matchId := matchId;
     c_mode := mode state;
     c_phase := phase state;
     c_bans := bans state;
     c_pick := pick state;
     available := getAvailableStages state;
     bansRemaining := getBansRemaining state;
     picksRemaining := getPicksRemaining state;
     canUndo := bool_decide (0 < length (history state))%nat |}.

Definition getComputedState (matchId : string) (matchStates : gmap string State)
  : ComputedState * gmap string State :=
  let '(state, matchStates) := getState matchId matchStates in
  (computed matchId state, matchStates).

(** The payload of an ['action'] message. *)
Record ActionMsg : Set := mkMsg {
  msg_matchId : option string;
  msg_type : option string;
  msg_stageId : option string;
  msg_mode : option string
}.

(** What the server sends: [socket.emit] reaches the requester only,
    [io.to(room).emit] every socket that joined the room. *)
Inductive Emit : Set :=
| SocketActionResult (ty : option string) (is_ok : bool) (err : option Error)
| SocketStateUpdate (view : ComputedState)
| RoomStateUpdate (room : string) (view : ComputedState)
| RoomEventPush (room : string) (ev : Event).

(** [matchId || currentMatchId || 'default']. *)
Definition resolveMatchId (matchId currentMatchId : option string) : string :=
  if truthy matchId then show matchId
  else if truthy currentMatchId then show currentMatchId
  else "default".

(** The [switch] of the ['action'] listener: the result and the store once
    the handler has run. A handler that mutates [state] mutates the object
    held in the store. *)
Definition runAction (now : Z) (matchId : string) (msg : ActionMsg)
    (matchStates : gmap string State) : Result * gmap string State :=
  let '(state, matchStates) := getState matchId matchStates in
  if decide (msg_type msg = Some "BAN") then
    let '(result, state) := handleBan now state (msg_stageId msg) in
    (result, <[matchId := state]> matchStates)
  else if decide (msg_type msg = Some "PICK") then
    let '(result, state) := handlePick now state (msg_stageId msg) in
    (result, <[matchId := state]> matchStates)
  else if decide (msg_type msg = Some "UNDO") then
    let '(result, state) := handleUndo state in
    (result, <[matchId := state]> matchStates)
  else if decide (msg_type msg = Some "RESET") then
    handleReset matchId matchStates
  else if decide (msg_type msg = Some "SET_MODE") then
    let result := handleSetMode state (msg_mode msg) in
    match ok result, newState result with
    | true, Some fresh => (result, <[matchId := fresh]> matchStates)
    | _, _ => (result, matchStates)
    end
  else if decide (msg_type msg = Some "FORCE_NEXT_PHASE") then
    let '(result, state) := handleForceNextPhase state in
    (result, <[matchId := state]> matchStates)
  else (failure (UnknownAction (msg_type msg)), matchStates).

(** The ['action'] listener of a connection whose last joined match is
    [currentMatchId]: the store afterwards and what was emitted. *)
Definition onAction (now : Z) (currentMatchId : option string) (msg : ActionMsg)
    (matchStates : gmap string State) : gmap string State * list Emit :=
  let matchId := resolveMatchId (msg_matchId msg) currentMatchId in
  let '(result, matchStates) := runAction now matchId msg matchStates in
  let reply := SocketActionResult (msg_type msg) (ok result) (error result) in
  if ok result then
    let '(view, matchStates) := getComputedState matchId matchStates in
    (matchStates,
     reply :: RoomStateUpdate matchId view ::
       match event result with
       | Some ev => [RoomEventPush matchId ev]
       | None => []
       end)
  else (matchStates, [reply]).

(** The ['join'] listener: the new [currentMatchId], the store and the
    one-shot state delivery. *)
Definition onJoin (matchId : option string) (matchStates : gmap string State)
  : option string * gmap string State * list Emit :=
  let matchId := if truthy matchId then show matchId else "default" in
  let '(view, matchStates) := getComputedState matchId matchStates in
  (Some matchId, matchStates, [SocketStateUpdate view]).

(** The messages a server processes, in arrival order. *)
Inductive Incoming : Set :=
| Action (now : Z) (currentMatchId : option string) (msg : ActionMsg)
| Join (matchId : option string).

Definition serve (matchStates : gmap string State) (i : Incoming)
  : gmap string State :=
  match i with
  | Action now cur msg => fst (onAction now cur msg matchStates)
  | Join matchId => snd (fst (onJoin matchId matchStates))
  end.

(** The store after a run of the server from startup. *)
Definition serveAll (l : list Incoming) : gmap string State :=
  foldl serve ∅ l.

(** ** Reachable states and invariants *)

(** The states one match can be in: the lazily created one, and whatever a
    handler leaves behind (a failing handler leaves the state as it was). *)
Inductive Reach : State → Prop :=
| Reach_init : Reach (createInitialState None)
| Reach_ban now s sid : Reach s → Reach (snd (handleBan now s sid))
| Reach_pick now s sid : Reach s → Reach (snd (handlePick now s sid))
| Reach_undo s : Reach s → Reach (snd (handleUndo s))
| Reach_force s : Reach s → Reach (snd (handleForceNextPhase s))
| Reach_setMode s m fresh :
    Reach s → newState (handleSetMode s m) = Some fresh → Reach fresh
| Reach_reset s : Reach s → Reach (createInitialState (Some (mode s))).

Definition isBanPhase (p : Phase) : Prop := p = WINNER_BAN ∨ p = LOSER_BAN.

(** The invariant of the data model: no id banned twice, the bans within
    the mode's quota, the pick not banned. *)
Definition StateInv (s : State) : Prop :=
  NoDup (bans s) ∧
  (mode s = "G1" ∧ (length (bans s) ≤ 7)%nat ∨
   mode s = "G2PLUS" ∧ (length (bans s) ≤ 3)%nat) ∧
  (∀ id, pick s = Some id → id ∉ bans s).

(** A history whose undoing cannot lead back into a ban phase before a
    [PICK] entry has been popped. *)
Inductive PickGuarded : list HistEntry → Prop :=
| PickGuarded_pick h e :
    action e = PICK → ¬ isBanPhase (prevPhase e) → PickGuarded (h ++ [e])
| PickGuarded_later h e :
    ¬ isBanPhase (prevPhase e) → PickGuarded h → PickGuarded (h ++ [e]).

(** The inductive strengthening of [StateInv]. *)
Definition Inv (s : State) : Prop :=
  StateInv s ∧
  (∀ id, id ∈ bans s → id ∈ stageIds) ∧
  (∀ id, pick s = Some id → id ∈ stageIds) ∧
  (is_Some (pick s) → ¬ isBanPhase (phase s) ∧ PickGuarded (history s)).

(** ** Runs of bans *)

(** Banning the ids of a list one after the other, from left to right;
    [None] as soon as one ban fails. *)
Fixpoint banEach (now : Z) (ids : list string) (state : State) : option State :=
  match ids with
  | [] => Some state
  | id :: ids =>
    let '(result, state) := handleBan now state (Some id) in
    if ok result then banEach now ids state else None
  end.

(** The phase that the counts alone determine while nothing is picked:
    the phase flow of the header comment of [server.js],
    WINNER_BAN (3) -> LOSER_BAN (4) -> WINNER_PICK for G1 and
    WINNER_BAN (3) -> LOSER_PICK otherwise. *)
Definition phaseOfBans (m : string) (n : nat) : Phase :=
  if decide (m = "G1") then
    if decide (n < 3)%nat then WINNER_BAN
    else if decide (n < 7)%nat then LOSER_BAN
    else WINNER_PICK
  else
    if decide (n < 3)%nat then WINNER_BAN else LOSER_PICK.

(** A state nobody has forced or picked in. *)
Definition Natural (s : State) : Prop :=
  (mode s = "G1" ∨ mode s = "G2PLUS") ∧
  pick s = None ∧
  phase s = phaseOfBans (mode s) (length (bans s)).

(** The phases of a mode's transition graph. *)
Definition phaseOfMode (m : string) (p : Phase) : Prop :=
  m = "G1" ∧ p ≠ LOSER_PICK ∨
  m = "G2PLUS" ∧ p ≠ LOSER_BAN ∧ p ≠ WINNER_PICK.

(** The current phase and every recorded previous phase belong to the
    graph of the state's mode. *)
Definition PhasesInMode (s : State) : Prop :=
  phaseOfMode (mode s) (phase s) ∧
  Forall (λ e, phaseOfMode (mode s) (prevPhase e)) (history s).

(** ** More of the server: interfaces, repeated undo *)

(** One entry of [os.networkInterfaces()[name]]. *)
Record NetworkInterface : Set := mkIface {
  address : string;
  family : string;
  internal : bool
}.

(** The test of [getLanIP]: an IPv4 address that is not internal. *)
Definition isLanAddress (iface : NetworkInterface) : bool :=
  bool_decide (family iface = "IPv4") && negb (internal iface).

(** [getLanIP], over the interfaces in the order of [Object.keys]: the
    first address that passes the test, ['localhost'] when none does. *)
Fixpoint getLanIP (interfaces : list (string * list NetworkInterface)) : string :=
  match interfaces with
  | [] => "localhost"
  | (name, ifaces) :: rest =>
    match List.find isLanAddress ifaces with
    | Some iface => address iface
    | None => getLanIP rest
    end
  end.

(** [n] undo requests in a row; [None] as soon as one fails. *)
Fixpoint undoTimes (n : nat) (state : State) : option State :=
  match n with
  | O => Some state
  | S n =>
    let '(result, state) := handleUndo state in
    if ok result then undoTimes n state else None
  end.

(** The stage ids of the BAN entries of a history, oldest first. *)
Definition bannedInHistory (h : list HistEntry) : list string :=
  omap (λ e, if decide (action e = BAN) then stageId e else None) h.

(** A ban phase that still has room: fewer than 3 bans in WINNER_BAN,
    fewer than 7 in LOSER_BAN. *)
Definition quotaOpen (p : Phase) (n : nat) : Prop :=
  (p = WINNER_BAN → (n < 3)%nat) ∧ (p = LOSER_BAN → (n < 7)%nat).

(** The bans are the ones the history records, and the current phase and
    every phase the history can lead back to had room for the bans made
    by then. *)
Definition HistInv (s : State) : Prop :=
  bans s = bannedInHistory (history s) ∧
  quotaOpen (phase s) (length (bans s)) ∧
  ∀ h1 e h2, history s = h1 ++ e :: h2 →
    quotaOpen (prevPhase e) (length (bannedInHistory h1)).

(** A set pick means phase DONE, with the PICK entry on top of the
    history. *)
Definition PickDone (s : State) : Prop :=
  is_Some (pick s) →
  phase s = DONE ∧ ∃ h e, history s = h ++ [e] ∧ action e = PICK.

(** The phase that mode, number of bans and pick determine when nobody
    forces a phase. *)
Definition derivedPhase (s : State) : Phase :=
  if truthy (pick s) then DONE else phaseOfBans (mode s) (length (bans s)).

(** ** The control page ([control.js]) *)

(** [urlParams.get('match') || 'default']. *)
Definition clientMatchId (param : option string) : string :=
  if truthy param then show param else "default".

(** What a click on a stage card does. *)
Inductive ClickEffect : Set :=
| NoEffect
| ShowToast (message kind : string)
| EmitAction (msg : ActionMsg).

(** [handleStageClick] of the control page, [currentState] being the last
    ['state:update'] received ([None] before the first one). *)
Definition handleStageClick (matchId : string)
    (currentState : option ComputedState) (clicked : string) : ClickEffect :=
  match currentState with
  | None => NoEffect
  | Some view =>
    if includes (c_bans view) clicked || bool_decide (c_pick view = Some clicked)
    then NoEffect
    else if bool_decide (c_phase view = WINNER_BAN ∨ c_phase view = LOSER_BAN)
    then EmitAction (mkMsg (Some matchId) (Some "BAN") (Some clicked) None)
    else if bool_decide (c_phase view = WINNER_PICK ∨ c_phase view = LOSER_PICK)
    then EmitAction (mkMsg (Some matchId) (Some "PICK") (Some clicked) None)
    else ShowToast "La selección está completada" "error"
  end.

(** ** The overlay page ([overlay.js]) *)

(** One element of [stages.json]. *)
Record Stage : Set := mkStage {
  s_id : string;
  s_name : string;
  s_short : option string
}.

Inductive TileKind : Set := TileBan | TilePick.

(** The two characters of the page templates that are written by their
    codes: the double quote and the line feed. *)
Definition dquote : string := String "034"%char "".
Definition newline : string := String "010"%char "".

(** The template literal of [createHistoryTile], character for character,
    with the values it interpolates: the label, [stage.id] and
    [stage.name]. The values are pasted in as they are, nothing is
    escaped. *)
Definition tileMarkup (label id name : string) : string :=
  String.concat ""
    [newline;
     "    <div class="; dquote; "tile-label"; dquote; ">"; label; "</div>"; newline;
     "    <div class="; dquote; "tile-image-container"; dquote; ">"; newline;
     "      <img "; newline;
     "        class="; dquote; "tile-image"; dquote; " "; newline;
     "        src="; dquote; "/assets/stages/"; id; ".png"; dquote; " "; newline;
     "        alt="; dquote; name; dquote; newline;
     "        onerror="; dquote; "this.style.display='none'"; dquote; newline;
     "      >"; newline;
     "    </div>"; newline;
     "    <div class="; dquote; "tile-name"; dquote; ">"; name; "</div>"; newline;
     "  "].

(** The element built by [createHistoryTile]: its class
    ([history-tile ban] or [history-tile pick]), its [dataset.stageId],
    the label its markup carries and the string assigned to its
    [innerHTML]. *)
Record Tile : Set := mkTile {
  tile_kind : TileKind;
  tile_stageId : string;
  tile_label : string;
  tile_innerHTML : string
}.

Definition createHistoryTile (stage : Stage) (kind : TileKind) : Tile :=
  let label := match kind with TileBan => "BANNED" | TilePick => "STAGE" end in
  {| tile_kind := kind;
     tile_stageId := s_id stage;
     tile_label := label;
     tile_innerHTML := tileMarkup label (s_id stage) (s_name stage) |}.

(** [stages.find(s => s.id === stageId)]. *)
Definition findStage (stages : list Stage) (id : string) : option Stage :=
  List.find (λ s, bool_decide (s_id s = id)) stages.

(** [renderBanHistory]: the children of the tile container afterwards
    ([None]: there is no container and nothing is touched). A banned id
    that names no stage gets no tile. *)
Definition renderBanHistory (container : bool) (stages : list Stage)
    (currentState : option ComputedState) : option (list Tile) :=
  if negb container then None
  else
    match currentState with
    | None => Some []
    | Some view =>
      if bool_decide (length stages = 0%nat) then Some []
      else
        Some
          (omap (λ id, (λ stage, createHistoryTile stage TileBan) <$> findStage stages id)
             (c_bans view) ++
           (if truthy (c_pick view)
            then match findStage stages (show (c_pick view)) with
                 | Some stage => [createHistoryTile stage TilePick]
                 | None => []
                 end
            else []))
    end.

(** The states built from a fresh one by successful bans, picks and forced
    advances only. *)
Inductive FReach : State → Prop :=
| FReach_fresh m : m = "G1" ∨ m = "G2PLUS" → FReach (createInitialState (Some m))
| FReach_ban now s sid :
    FReach s → ok (fst (handleBan now s sid)) = true →
    FReach (snd (handleBan now s sid))
| FReach_pick now s sid :
    FReach s → ok (fst (handlePick now s sid)) = true →
    FReach (snd (handlePick now s sid))
| FReach_force s :
    FReach s → ok (fst (handleForceNextPhase s)) = true →
    FReach (snd (handleForceNextPhase s)).




(** The stage list behind [sample_stageIds], with the names of the
    README. *)
Definition sample_stages : list Stage :=
  [mkStage "battlefield" "Battlefield" None;
   mkStage "small-battlefield" "Small Battlefield" None;
   mkStage "final-destination" "Final Destination" None;
   mkStage "smashville" "Smashville" None;
   mkStage "ps2" "Pokémon Stadium 2" None;
   mkStage "town-city" "Town & City" None;
   mkStage "yoshis-story" "Yoshi's Story" None;
   mkStage "hollow-bastion" "Hollow Bastion" None;
   mkStage "kalos" "Kalos Pokémon League" None].

(** ** Basic facts *)

Lemma includes_true l id : includes l id = true ↔ id ∈ l.
Proof. unfold includes. apply bool_decide_eq_true. Qed.

Lemma includes_false l id : includes l id = false ↔ id ∉ l.
Proof. unfold includes. apply bool_decide_eq_false. Qed.

Lemma truthy_None v : truthy v = false → v = None ∨ v = Some "".
Proof.
  destruct v as [x|]; simpl; [|by left].
  case_bool_decide; [subst; by right | discriminate].
Qed.

(** [advancePhase] writes the phase only, and never moves a state that is
    past the ban phases back into one. *)
Lemma advancePhase_set_phase s :
  ∃ p, advancePhase s = set_phase p s ∧ (isBanPhase p → isBanPhase (phase s)).
Proof.
  unfold advancePhase, isBanPhase.
  repeat case_match;
    repeat match goal with
    | H : _ && _ = true |- _ => apply andb_true_iff in H as [H _]
    | H : bool_decide _ = true |- _ => apply bool_decide_eq_true in H
    end;
    first
      [ exists (phase s); split; [by destruct s | done]
      | eexists; split; [reflexivity |];
        intros [?|?]; first [discriminate | by left] ].
Qed.

Lemma PickGuarded_snoc h e :
  PickGuarded (h ++ [e]) →
  ¬ isBanPhase (prevPhase e) ∧ (action e = PICK ∨ PickGuarded h).
Proof.
  inversion 1 as [h' e' Ha Hp Heq | h' e' Hp Hg Heq];
    apply app_inj_tail in Heq as [-> ->]; auto.
Qed.

Lemma last_removelast {A} (l : list A) x :
  last l = Some x → l = removelast l ++ [x].
Proof.
  destruct l as [|y l' _] using rev_ind; [done|].
  rewrite last_snoc. intros [= ->]. by rewrite removelast_last.
Qed.

(** ** Preservation of the invariant *)

Lemma Inv_intro_no_pick s :
  NoDup (bans s) →
  (mode s = "G1" ∧ (length (bans s) ≤ 7)%nat ∨
   mode s = "G2PLUS" ∧ (length (bans s) ≤ 3)%nat) →
  (∀ id, id ∈ bans s → id ∈ stageIds) →
  pick s = None →
  Inv s.
Proof.
  intros Hnd Hq Hsub Hp. unfold Inv, StateInv. rewrite Hp.
  split_and!; try done; by intros [? [=]].
Qed.

Lemma Inv_init m : m = "G1" ∨ m = "G2PLUS" → Inv (createInitialState (Some m)).
Proof.
  intros Hm. apply Inv_intro_no_pick; simpl.
  - constructor.
  - destruct Hm as [-> | ->]; [left | right]; split; auto; lia.
  - intros ? []%elem_of_nil.
  - done.
Qed.

Lemma Inv_mode s : Inv s → mode s = "G1" ∨ mode s = "G2PLUS".
Proof. intros [(_ & [[? _] | [? _]] & _) _]; auto. Qed.

(** In a ban phase of a state that satisfies the invariant nothing is
    picked. *)
Lemma Inv_ban_phase_no_pick s : Inv s → isBanPhase (phase s) → pick s = None.
Proof.
  intros (_ & _ & _ & Hg) Hph.
  destruct (pick s) eqn:E; [|done]. destruct Hg as [Hn _]; [by eauto | done].
Qed.

Lemma not_not_ban_phase p : ¬ (p ≠ WINNER_BAN ∧ p ≠ LOSER_BAN) → isBanPhase p.
Proof. unfold isBanPhase. destruct p; naive_solver. Qed.

Lemma Inv_ban now s sid : Inv s → Inv (snd (handleBan now s sid)).
Proof.
  intros HI. unfold handleBan.
  destruct sid as [id|]; [|done].
  destruct (includes stageIds id) eqn:Hcat; [|done]. simpl.
  destruct (includes (bans s) id) eqn:Hban; [done|].
  case_decide as Hph; [done|].
  destruct (getBansRemaining s <=? 0) eqn:Hrem; [done|]. simpl.
  apply includes_true in Hcat. apply includes_false in Hban.
  apply Z.leb_gt in Hrem. apply not_not_ban_phase in Hph.
  pose proof (Inv_ban_phase_no_pick s HI Hph) as Hnone.
  destruct HI as ((Hnd & Hq & Hpb) & Hsub & Hpc & Hg).
  match goal with |- Inv (advancePhase ?t) =>
    destruct (advancePhase_set_phase t) as (p & -> & _) end.
  apply Inv_intro_no_pick; simpl; [| | |done].
  - apply NoDup_app. split_and!; [done | | apply NoDup_singleton].
    intros x Hx ->%list_elem_of_singleton. done.
  - rewrite length_app; simpl. unfold getBansRemaining in Hrem.
    destruct Hq as [[Hm Hl] | [Hm Hl]]; [left | right]; (split; [done|]);
      repeat case_decide; first [lia | destruct_and?; congruence].
  - intros x [Hx | ->%list_elem_of_singleton]%elem_of_app; auto.
Qed.

Lemma not_not_pick_phase p :
  ¬ (p ≠ WINNER_PICK ∧ p ≠ LOSER_PICK) → p = WINNER_PICK ∨ p = LOSER_PICK.
Proof. destruct p; naive_solver. Qed.

Lemma Inv_pick now s sid : Inv s → Inv (snd (handlePick now s sid)).
Proof.
  intros HI. unfold handlePick.
  destruct sid as [id|]; [|done].
  destruct (includes stageIds id) eqn:Hcat; [|done]. simpl.
  destruct (includes (bans s) id) eqn:Hban; [done|].
  case_decide as Hph; [done|].
  destruct (truthy (pick s)) eqn:Hpk; [done|]. simpl.
  apply includes_true in Hcat. apply includes_false in Hban.
  apply not_not_pick_phase in Hph.
  destruct HI as ((Hnd & Hq & Hpb) & Hsub & Hpc & Hg).
  match goal with |- Inv (advancePhase ?t) =>
    destruct (advancePhase_set_phase t) as (p & -> & Hp) end.
  simpl in Hp. unfold Inv, StateInv; simpl.
  split_and!; try done.
  - by intros ? [= <-].
  - by intros ? [= <-].
  - intros _. split.
    + intros Hb. apply Hp in Hb.
      destruct Hph as [E | E], Hb as [E' | E']; congruence.
    + apply PickGuarded_pick; [done|]. simpl.
      intros [E' | E']; destruct Hph as [E | E]; congruence.
Qed.

Lemma Inv_force s : Inv s → Inv (snd (handleForceNextPhase s)).
Proof.
  intros HI. unfold handleForceNextPhase.
  destruct (transitions (mode s) (phase s)) as [next|] eqn:Ht; [|done].
  case_decide as Hne; [done|]. simpl.
  destruct HI as ((Hnd & Hq & Hpb) & Hsub & Hpc & Hg).
  unfold Inv, StateInv; simpl. split_and!; try done.
  intros Hs. destruct (Hg Hs) as [Hnb Hpg]. split.
  - unfold transitions in Ht. unfold isBanPhase in *.
    repeat case_decide; destruct (phase s); simplify_eq;
      first [by intros [? | ?] | exfalso; apply Hnb; auto].
  - by apply PickGuarded_later.
Qed.

Lemma Inv_undo s : Inv s → Inv (snd (handleUndo s)).
Proof.
  intros HI. unfold handleUndo.
  destruct (last (history s)) as [e|] eqn:Hlast; [|done]. simpl.
  apply last_removelast in Hlast.
  destruct HI as ((Hnd & Hq & Hpb) & Hsub & Hpc & Hg).
  assert (∀ P `{∀ x : string, Decision (P x)},
    (mode s = "G1" ∧ (length (filter P (bans s)) ≤ 7)%nat ∨
     mode s = "G2PLUS" ∧ (length (filter P (bans s)) ≤ 3)%nat)) as Hq'.
  { intros P ?. pose proof (length_filter P (bans s)).
    destruct Hq as [[? ?]|[? ?]]; [left|right]; split; auto; lia. }
  assert (is_Some (pick s) →
    ¬ isBanPhase (prevPhase e) ∧ (action e = PICK ∨ PickGuarded (removelast (history s))))
    as Hg'.
  { intros Hs. destruct (Hg Hs) as [_ Hpg]. rewrite Hlast in Hpg.
    by apply PickGuarded_snoc. }
  destruct (action e) eqn:Ha; unfold Inv, StateInv; simpl; split_and!; try done.
  - by apply NoDup_filter.
  - intros id Hid [_ Hin]%list_elem_of_filter. by eapply Hpb.
  - intros id [_ Hin]%list_elem_of_filter. auto.
  - intros Hs. destruct (Hg' Hs) as [? [? | ?]]; [discriminate | by split].
  - intros Hs. destruct (Hg' Hs) as [? [? | ?]]; [discriminate | by split].
Qed.

Lemma Inv_setMode s m fresh :
  newState (handleSetMode s m) = Some fresh → Inv fresh.
Proof.
  unfold handleSetMode. case_decide as Hm; [done|]. simpl. intros [= <-].
  destruct m as [m|].
  - apply Inv_init.
    destruct (decide (m = "G1")), (decide (m = "G2PLUS")); subst; auto.
    destruct Hm; split; congruence.
  - destruct Hm; split; congruence.
Qed.

Lemma Inv_reset s : Inv s → Inv (createInitialState (Some (mode s))).
Proof. intros HI. apply Inv_init. by apply Inv_mode. Qed.

Lemma Reach_Inv s : Reach s → Inv s.
Proof.
  induction 1.
  - apply (Inv_init "G1"). by left.
  - by apply Inv_ban.
  - by apply Inv_pick.
  - by apply Inv_undo.
  - by apply Inv_force.
  - by eapply Inv_setMode.
  - by apply Inv_reset.
Qed.

(** ** What a successful or a failing handler call looks like *)

Lemma handleBan_ok now s sid r s' :
  handleBan now s sid = (r, s') → ok r = true →
  ∃ id, sid = Some id ∧ id ∈ stageIds ∧ (id ∉ bans s) ∧
    isBanPhase (phase s) ∧ (0 < getBansRemaining s) ∧
    r = success_event (mkEvent BAN sid now) ∧
    s' = advancePhase
           (set_history (history s ++ [mkEntry BAN sid (phase s)])
              (set_bans (bans s ++ [id]) s)).
Proof.
  unfold handleBan. destruct sid as [id|]; [|by intros [= <- <-]].
  destruct (includes stageIds id) eqn:Hcat; [|by intros [= <- <-]]. simpl.
  destruct (includes (bans s) id) eqn:Hban; [by intros [= <- <-]|].
  case_decide as Hph; [by intros [= <- <-]|].
  destruct (getBansRemaining s <=? 0) eqn:Hrem; [by intros [= <- <-]|].
  intros [= <- <-] _. exists id.
  apply includes_true in Hcat. apply includes_false in Hban.
  apply Z.leb_gt in Hrem. apply not_not_ban_phase in Hph. done.
Qed.

Lemma handleBan_fail now s sid r s' :
  handleBan now s sid = (r, s') → ok r = false → s' = s ∧ event r = None.
Proof.
  unfold handleBan. repeat case_match; intros [= <- <-]; done.
Qed.

Lemma handlePick_ok now s sid r s' :
  handlePick now s sid = (r, s') → ok r = true →
  ∃ id, sid = Some id ∧ id ∈ stageIds ∧ (id ∉ bans s) ∧
    (phase s = WINNER_PICK ∨ phase s = LOSER_PICK) ∧
    (truthy (pick s) = false) ∧
    r = success_event (mkEvent PICK sid now) ∧
    s' = advancePhase
           (set_history (history s ++ [mkEntry PICK sid (phase s)])
              (set_pick sid s)).
Proof.
  unfold handlePick. destruct sid as [id|]; [|by intros [= <- <-]].
  destruct (includes stageIds id) eqn:Hcat; [|by intros [= <- <-]]. simpl.
  destruct (includes (bans s) id) eqn:Hban; [by intros [= <- <-]|].
  case_decide as Hph; [by intros [= <- <-]|].
  destruct (truthy (pick s)) eqn:Hpk; [by intros [= <- <-]|].
  intros [= <- <-] _. exists id.
  apply includes_true in Hcat. apply includes_false in Hban.
  apply not_not_pick_phase in Hph. done.
Qed.

Lemma handlePick_fail now s sid r s' :
  handlePick now s sid = (r, s') → ok r = false → s' = s ∧ event r = None.
Proof.
  unfold handlePick. repeat case_match; intros [= <- <-]; done.
Qed.

Lemma handleForceNextPhase_ok s r s' :
  handleForceNextPhase s = (r, s') → ok r = true →
  ∃ next, transitions (mode s) (phase s) = Some next ∧ next ≠ phase s ∧
    r = success ∧
    s' = set_history (history s ++ [mkEntry FORCE_PHASE None (phase s)])
           (set_phase next s).
Proof.
  unfold handleForceNextPhase.
  destruct (transitions (mode s) (phase s)) as [next|]; [|by intros [= <- <-]].
  case_decide; [by intros [= <- <-]|].
  intros [= <- <-] _. by exists next.
Qed.

Lemma handleForceNextPhase_fail s r s' :
  handleForceNextPhase s = (r, s') → ok r = false →
  s' = s ∧ event r = None ∧ error r = Some CannotAdvancePhase.
Proof.
  unfold handleForceNextPhase. repeat case_match; intros [= <- <-]; done.
Qed.

Lemma handleUndo_fail s r s' :
  handleUndo s = (r, s') → ok r = false →
  s' = s ∧ event r = None ∧ error r = Some NothingToUndo.
Proof.
  unfold handleUndo. repeat case_match; intros [= <- <-]; done.
Qed.

(** Undoing the entry that was just pushed. *)
Lemma handleUndo_snoc s h e :
  history s = h ++ [e] →
  handleUndo s =
    (success,
     set_phase (prevPhase e)
       match action e with
       | BAN => set_bans (filter (λ id, Some id ≠ stageId e) (bans s))
                  (set_history h s)
       | PICK => set_pick None (set_history h s)
       | FORCE_PHASE => set_history h s
       end).
Proof.
  intros Hh. unfold handleUndo. rewrite Hh, last_snoc, removelast_last.
  by destruct (action e).
Qed.

Lemma filter_pushed (l : list string) id :
  id ∉ l → filter (λ x, Some x ≠ Some id) (l ++ [id]) = l.
Proof.
  intros Hid. rewrite filter_app, (filter_cons_False _ id []) by naive_solver.
  rewrite filter_nil, app_nil_r. induction l as [|y l IH]; [done|].
  apply not_elem_of_cons in Hid as [Hne Hid].
  rewrite filter_cons_True by congruence. by rewrite IH.
Qed.

(** ** Properties of the state machine *)

(** C1. In every reachable state the bans hold no id twice, there are at
    most 7 of them in mode G1 and at most 3 in mode G2PLUS, and the pick,
    when set, is not banned ([StateInv]); and the state that any of Ban,
    Pick, Undo, SetMode, ForceAdvance and Reset leaves behind, whether the
    call succeeds or fails, satisfies the same invariant. *)
Theorem reachable_state_invariant s :
  Reach s →
  StateInv s ∧
  (∀ now sid, StateInv (snd (handleBan now s sid))) ∧
  (∀ now sid, StateInv (snd (handlePick now s sid))) ∧
  StateInv (snd (handleUndo s)) ∧
  (∀ m, StateInv (default s (newState (handleSetMode s m)))) ∧
  StateInv (snd (handleForceNextPhase s)) ∧
  StateInv (createInitialState (Some (mode s))).
Proof.
  intros Hr. split_and!.
  - by apply Reach_Inv.
  - intros now sid. by apply Reach_Inv, Reach_ban.
  - intros now sid. by apply Reach_Inv, Reach_pick.
  - by apply Reach_Inv, Reach_undo.
  - intros m. destruct (newState (handleSetMode s m)) as [fresh|] eqn:E; simpl.
    + by apply Reach_Inv, (Reach_setMode s m).
    + by apply Reach_Inv.
  - by apply Reach_Inv, Reach_force.
  - by apply Reach_Inv, Reach_reset.
Qed.

(** C2. In a reachable state, a successful Ban, Pick or ForceAdvance
    followed by Undo gives back the state the operation started from:
    Undo succeeds and the whole state object, so in particular [bans],
    [pick] and [phase] (and [mode] and [history]), is as before. *)
Theorem undo_inverts_last_operation s :
  Reach s →
  (∀ now sid r s', handleBan now s sid = (r, s') → ok r = true →
     handleUndo s' = (success, s) ∧
     bans (snd (handleUndo s')) = bans s ∧
     pick (snd (handleUndo s')) = pick s ∧
     phase (snd (handleUndo s')) = phase s) ∧
  (∀ now sid r s', handlePick now s sid = (r, s') → ok r = true →
     handleUndo s' = (success, s) ∧
     bans (snd (handleUndo s')) = bans s ∧
     pick (snd (handleUndo s')) = pick s ∧
     phase (snd (handleUndo s')) = phase s) ∧
  (∀ r s', handleForceNextPhase s = (r, s') → ok r = true →
     handleUndo s' = (success, s) ∧
     bans (snd (handleUndo s')) = bans s ∧
     pick (snd (handleUndo s')) = pick s ∧
     phase (snd (handleUndo s')) = phase s).
Proof using stageIds_truthy.
  intros Hr. apply Reach_Inv in Hr.
  assert (∀ s', handleUndo s' = (success, s) →
    handleUndo s' = (success, s) ∧
    bans (snd (handleUndo s')) = bans s ∧
    pick (snd (handleUndo s')) = pick s ∧
    phase (snd (handleUndo s')) = phase s) as Hfields.
  { intros s' ->. done. }
  split_and!.
  - intros now sid r s' Hb Hok. apply Hfields.
    destruct (handleBan_ok _ _ _ _ _ Hb Hok) as (id & -> & _ & Hnb & _ & _ & _ & ->).
    match goal with |- handleUndo (advancePhase ?t) = _ =>
      destruct (advancePhase_set_phase t) as (p & -> & _) end.
    erewrite handleUndo_snoc by reflexivity. simpl.
    rewrite filter_pushed by done. by destruct s.
  - intros now sid r s' Hp Hok. apply Hfields.
    destruct (handlePick_ok _ _ _ _ _ Hp Hok) as (id & -> & _ & _ & _ & Hpk & _ & ->).
    assert (pick s = None) as Hnone.
    { destruct (truthy_None _ Hpk) as [? | Hempty]; [done|].
      destruct Hr as (_ & _ & Hpc & _). by apply Hpc in Hempty. }
    match goal with |- handleUndo (advancePhase ?t) = _ =>
      destruct (advancePhase_set_phase t) as (p & -> & _) end.
    erewrite handleUndo_snoc by reflexivity. simpl.
    destruct s; simpl in *; by subst.
  - intros r s' Hf Hok. apply Hfields.
    destruct (handleForceNextPhase_ok _ _ _ Hf Hok) as (next & _ & _ & _ & ->).
    erewrite handleUndo_snoc by reflexivity. simpl. by destruct s.
Qed.

(** ** Runs of bans from a fresh state *)

Lemma Natural_init m : m = "G1" ∨ m = "G2PLUS" → Natural (createInitialState (Some m)).
Proof.
  intros Hm. split_and!; [done | done |]. simpl. unfold phaseOfBans.
  repeat case_decide; first [done | lia].
Qed.

Lemma advancePhase_fields t :
  mode (advancePhase t) = mode t ∧ bans (advancePhase t) = bans t ∧
  pick (advancePhase t) = pick t ∧ history (advancePhase t) = history t.
Proof. by destruct (advancePhase_set_phase t) as (p & -> & _). Qed.

Lemma Natural_ban now s sid r s' :
  Natural s → handleBan now s sid = (r, s') → ok r = true →
  Natural s' ∧ ∃ id, sid = Some id ∧ bans s' = bans s ++ [id] ∧ mode s' = mode s.
Proof.
  intros (Hm & Hp & Hph) Hb Hok.
  destruct (handleBan_ok _ _ _ _ _ Hb Hok) as (id & -> & _ & _ & Hban & Hrem & _ & ->).
  clear Hb Hok.
  match goal with |- context [advancePhase ?t] =>
    destruct (advancePhase_fields t) as (Em & Eb & Ep & _) end.
  unfold Natural. rewrite Em, Eb, Ep. simpl.
  split; [|by exists id]. split_and!; [done | done |].
  clear Em Eb Ep.
  unfold advancePhase, getBansRemaining, phaseOfBans in *.
  destruct s as [m ph b pk h]; simpl in *. subst pk.
  rewrite !length_app. simpl.
  assert (∀ n : nat, (3 <=? Z.of_nat n) = bool_decide (3 ≤ n)%nat) as E3.
  { intros n. case_bool_decide; [apply Z.leb_le | apply Z.leb_gt]; lia. }
  assert (∀ n : nat, (7 <=? Z.of_nat n) = bool_decide (7 ≤ n)%nat) as E7.
  { intros n. case_bool_decide; [apply Z.leb_le | apply Z.leb_gt]; lia. }
  rewrite !E3, ?E7. clear E3 E7.
  destruct Hm as [-> | ->]; simpl;
    destruct Hban as [-> | ->]; simpl;
    repeat case_decide; simplify_eq; try lia;
    repeat case_bool_decide; simpl; rewrite ?length_app; simpl;
    repeat case_decide; simplify_eq; try lia; try done;
    destruct_and?; simplify_eq.
Qed.

Lemma banEach_cons now id ids s :
  banEach now (id :: ids) s =
  if ok (fst (handleBan now s (Some id)))
  then banEach now ids (snd (handleBan now s (Some id)))
  else None.
Proof. cbn [banEach]. by destruct (handleBan now s (Some id)). Qed.

Lemma banEach_Natural now ids : ∀ s s',
  Natural s → banEach now ids s = Some s' →
  Natural s' ∧ bans s' = bans s ++ ids ∧ mode s' = mode s.
Proof.
  induction ids as [|id ids IH]; intros s s' Hn.
  - intros [= <-]. rewrite app_nil_r. auto.
  - rewrite banEach_cons.
    destruct (handleBan now s (Some id)) as [r s1] eqn:Hb. simpl.
    destruct (ok r) eqn:Hok; [|done]. intros Hrest.
    destruct (Natural_ban _ _ _ _ _ Hn Hb Hok) as (Hn1 & id' & [= <-] & Hb1 & Hm1).
    destruct (IH _ _ Hn1 Hrest) as (? & Hb' & Hm').
    split_and!; [done | | congruence].
    by rewrite Hb', Hb1, <- app_assoc.
Qed.

Lemma banEach_fresh_phase now m ids s :
  m = "G1" ∨ m = "G2PLUS" →
  banEach now ids (createInitialState (Some m)) = Some s →
  mode s = m ∧ bans s = ids ∧ pick s = None ∧
  phase s = phaseOfBans m (length ids).
Proof.
  intros Hm Hrun.
  destruct (banEach_Natural _ _ _ _ (Natural_init m Hm) Hrun)
    as ((_ & Hp & Hph) & Hb & Hmode).
  simpl in Hb, Hmode. rewrite Hph, Hmode, Hb. done.
Qed.

Lemma handleBan_success now s id :
  id ∈ stageIds → id ∉ bans s → isBanPhase (phase s) → 0 < getBansRemaining s →
  ok (fst (handleBan now s (Some id))) = true.
Proof.
  intros Hcat%includes_true Hnew%includes_false Hph Hrem%Z.leb_gt.
  unfold handleBan. rewrite Hcat, Hnew, Hrem. simpl.
  case_decide as Hn; [|done]. destruct Hn as [? ?], Hph; done.
Qed.

(** Distinct catalog ids, no more than the mode's quota of them, can be
    banned one after the other from a fresh state. *)
Lemma banEach_fresh_succeeds now m ids :
  m = "G1" ∨ m = "G2PLUS" →
  NoDup ids → (∀ id, id ∈ ids → id ∈ stageIds) →
  (length ids ≤ if decide (m = "G1") then 7 else 3)%nat →
  is_Some (banEach now ids (createInitialState (Some m))).
Proof.
  intros Hm. induction ids as [|id ids IH] using rev_ind; intros Hnd Hsub Hlen.
  - by eexists.
  - apply NoDup_app in Hnd as (Hnd & Hfresh & _).
    rewrite length_app in Hlen. simpl in Hlen.
    destruct IH as [s Hs]; [done | | lia |].
    { intros x Hx. apply Hsub, elem_of_app. by left. }
    destruct (banEach_fresh_phase _ _ _ _ Hm Hs) as (Hmode & Hb & Hp & Hph).
    assert (∀ l s0, banEach now (l ++ [id]) s0 =
                    banEach now l s0 ≫= banEach now [id]) as Happ.
    { induction l as [|y l IHl]; intros s0.
      - done.
      - change ((y :: l) ++ [id]) with (y :: (l ++ [id])).
        rewrite (banEach_cons now y (l ++ [id])), (banEach_cons now y l).
        destruct (ok _); [apply IHl | done]. }
    rewrite Happ, Hs. change (is_Some (banEach now [id] s)).
    rewrite banEach_cons. cbn [banEach].
    assert (id ∈ stageIds) as Hcat.
    { apply Hsub, elem_of_app. right. by apply list_elem_of_singleton. }
    assert (id ∉ ids) as Hnew.
    { intros Hin. apply (Hfresh id Hin). by apply list_elem_of_singleton. }
    assert (isBanPhase (phase s) ∧ 0 < getBansRemaining s) as [Hban Hrem].
    { unfold getBansRemaining, phaseOfBans, isBanPhase in *.
      rewrite Hph, Hmode, Hb. clear Happ Hs Hph Hb.
      destruct Hm as [-> | ->];
        repeat (case_decide; simplify_eq; try lia);
        (split; [auto | try lia]);
        match goal with H : ¬ (_ ∧ _) |- _ => by destruct H end. }
    rewrite <- Hb in Hnew.
    by rewrite (handleBan_success _ _ _ Hcat Hnew Hban Hrem).
Qed.

(** C3. From a fresh G1 state (phase WINNER_BAN) three successful bans
    lead to LOSER_BAN, four more successful bans to WINNER_PICK and a
    successful pick to DONE; from a fresh G2PLUS state three successful
    bans lead to LOSER_PICK and a successful pick to DONE. *)
Theorem fresh_match_phase_flow now :
  (∀ ids3 ids4 p s3 s7 r s8,
     length ids3 = 3%nat → length ids4 = 4%nat →
     banEach now ids3 (createInitialState (Some "G1")) = Some s3 →
     banEach now ids4 s3 = Some s7 →
     handlePick now s7 (Some p) = (r, s8) → ok r = true →
     phase (createInitialState (Some "G1")) = WINNER_BAN ∧
     phase s3 = LOSER_BAN ∧ phase s7 = WINNER_PICK ∧ phase s8 = DONE) ∧
  (∀ ids3 p s3 r s4,
     length ids3 = 3%nat →
     banEach now ids3 (createInitialState (Some "G2PLUS")) = Some s3 →
     handlePick now s3 (Some p) = (r, s4) → ok r = true →
     phase (createInitialState (Some "G2PLUS")) = WINNER_BAN ∧
     phase s3 = LOSER_PICK ∧ phase s4 = DONE).
Proof using stageIds_truthy.
  assert (∀ s p r s', handlePick now s (Some p) = (r, s') → ok r = true →
    mode s = "G1" ∧ phase s = WINNER_PICK ∨
    mode s ≠ "G1" ∧ phase s = LOSER_PICK →
    phase s' = DONE) as Hpick.
  { intros s p r s' Hp Hok Hs.
    destruct (handlePick_ok _ _ _ _ _ Hp Hok) as (id & [= <-] & Hcat & _ & _ & _ & _ & ->).
    assert (bool_decide (p = "") = false) as Ht.
    { apply bool_decide_eq_false. by intros ->. }
    unfold advancePhase. simpl. rewrite Ht.
    destruct Hs as [[-> ->] | [Hm ->]]; simpl; [done|].
    destruct (decide (mode s = "G1")); [done | reflexivity]. }
  split.
  - intros ids3 ids4 p s3 s7 r s8 H3 H4 Hr3 Hr4 Hp Hok.
    assert (Natural s3 ∧ bans s3 = ids3 ∧ mode s3 = "G1") as (Hn3 & Hb3 & Hm3).
    { by apply (banEach_Natural now ids3 (createInitialState (Some "G1")));
        [apply Natural_init; left|]. }
    destruct (banEach_Natural _ _ _ _ Hn3 Hr4) as (Hn7 & Hb7 & Hm7).
    destruct Hn3 as (_ & _ & Hph3), Hn7 as (_ & _ & Hph7).
    rewrite Hm7, Hb7, length_app, Hb3, Hm3, H3, H4 in Hph7.
    rewrite Hb3, Hm3, H3 in Hph3.
    split_and!; [done | done | done |].
    eapply Hpick; [done | done | left; split; [congruence | exact Hph7]].
  - intros ids3 p s3 r s4 H3 Hr3 Hp Hok.
    assert (Natural s3 ∧ bans s3 = ids3 ∧ mode s3 = "G2PLUS") as (Hn3 & Hb3 & Hm3).
    { by apply (banEach_Natural now ids3 (createInitialState (Some "G2PLUS")));
        [apply Natural_init; right|]. }
    destruct Hn3 as (_ & _ & Hph3).
    rewrite Hb3, Hm3, H3 in Hph3.
    split_and!; [done | done |].
    eapply Hpick; [done | done | right; split; [by rewrite Hm3 | exact Hph3]].
Qed.

(** ** Phases stay within the graph of the mode *)

Lemma PhasesInMode_init m :
  m = "G1" ∨ m = "G2PLUS" → PhasesInMode (createInitialState (Some m)).
Proof.
  intros Hm. split; simpl; [|constructor].
  unfold phaseOfMode. destruct Hm; [left | right]; by split_and!.
Qed.

Lemma advancePhase_phaseOfMode t :
  phaseOfMode (mode t) (phase t) →
  phaseOfMode (mode t) (phase (advancePhase t)).
Proof.
  unfold advancePhase, phaseOfMode.
  intros [[Hm Hp] | (Hm & Hp1 & Hp2)]; rewrite Hm;
    repeat case_match; simpl; simplify_eq;
    first [by left | by right; split_and!].
Qed.

Lemma PhasesInMode_push t e :
  PhasesInMode t → prevPhase e = phase t →
  PhasesInMode (advancePhase (set_history (history t ++ [e]) t)).
Proof.
  intros [Hp Hh] He.
  match goal with |- PhasesInMode (advancePhase ?u) =>
    pose proof (advancePhase_phaseOfMode u) as Hadv;
    destruct (advancePhase_fields u) as (Em & _ & _ & Eh) end.
  split; rewrite ?Em, ?Eh; simpl in *; [by apply Hadv|].
  apply Forall_app. split; [done|]. apply Forall_singleton. by rewrite He.
Qed.

Lemma PhasesInMode_ban now s sid :
  PhasesInMode s → PhasesInMode (snd (handleBan now s sid)).
Proof.
  intros Hs. destruct (handleBan now s sid) as [r s'] eqn:Hb.
  destruct (ok r) eqn:Hok; simpl.
  - destruct (handleBan_ok _ _ _ _ _ Hb Hok) as (id & _ & _ & _ & _ & _ & _ & ->).
    by apply (PhasesInMode_push (set_bans _ s)).
  - by destruct (handleBan_fail _ _ _ _ _ Hb Hok) as [-> _].
Qed.

Lemma PhasesInMode_pick now s sid :
  PhasesInMode s → PhasesInMode (snd (handlePick now s sid)).
Proof.
  intros Hs. destruct (handlePick now s sid) as [r s'] eqn:Hp.
  destruct (ok r) eqn:Hok; simpl.
  - destruct (handlePick_ok _ _ _ _ _ Hp Hok) as (id & _ & _ & _ & _ & _ & _ & ->).
    by apply (PhasesInMode_push (set_pick _ s)).
  - by destruct (handlePick_fail _ _ _ _ _ Hp Hok) as [-> _].
Qed.

Lemma PhasesInMode_force s :
  PhasesInMode s → PhasesInMode (snd (handleForceNextPhase s)).
Proof.
  intros [Hp Hh]. unfold handleForceNextPhase.
  destruct (transitions (mode s) (phase s)) as [next|] eqn:Ht; [|done].
  case_decide; [done|]. split; simpl.
  - unfold transitions, phaseOfMode in *.
    repeat case_decide; destruct (phase s); simplify_eq;
      first [by left | by right; split_and! | by destruct Hp as [[? ?] | (? & ? & ?)]].
  - apply Forall_app. split; [done|]. by apply Forall_singleton.
Qed.

Lemma PhasesInMode_undo s : PhasesInMode s → PhasesInMode (snd (handleUndo s)).
Proof.
  intros [Hp Hh]. unfold handleUndo.
  destruct (last (history s)) as [e|] eqn:Hlast; [|done].
  apply last_removelast in Hlast. rewrite Hlast in Hh.
  rewrite Forall_app, Forall_singleton in Hh. destruct Hh as [Hh He].
  destruct (action e); split; simpl; done.
Qed.

Lemma Reach_PhasesInMode s : Reach s → PhasesInMode s.
Proof.
  induction 1 as [| | | | | s m fresh _ _ Hnew | s Hr _].
  - apply (PhasesInMode_init "G1"). by left.
  - by apply PhasesInMode_ban.
  - by apply PhasesInMode_pick.
  - by apply PhasesInMode_undo.
  - by apply PhasesInMode_force.
  - unfold handleSetMode in Hnew. case_decide as Hm; [done|].
    injection Hnew as <-. destruct m as [m|]; [|by destruct Hm].
    apply PhasesInMode_init.
    destruct (decide (m = "G1")), (decide (m = "G2PLUS")); subst; auto.
    destruct Hm; split; congruence.
  - apply PhasesInMode_init. by apply Inv_mode, Reach_Inv.
Qed.

(** The LOSER_BAN phase exists in mode G1 only. *)
Lemma Reach_LOSER_BAN s : Reach s → phase s = LOSER_BAN → mode s = "G1".
Proof.
  intros [[[? _] | (_ & ? & _)] _]%Reach_PhasesInMode Hp; [done | congruence].
Qed.

(** C4. For a catalog id that is not banned yet, in a ban phase (LOSER_BAN
    being a phase of mode G1, as in every reachable state), [handleBan]
    fails with "No bans remaining in this phase" exactly when the phase is
    WINNER_BAN with at least 3 bans, or the phase is LOSER_BAN of G1 with
    at least 7 bans, and it fails in no other way. In LOSER_BAN of G1 the
    remaining allowance is [7 - bans.length]: after a forced advance from
    a fresh WINNER_BAN it is 7, more than 4. *)
Theorem ban_quota_exhausted now s id :
  id ∈ stageIds → id ∉ bans s → isBanPhase (phase s) →
  (phase s = LOSER_BAN → mode s = "G1") →
  (fst (handleBan now s (Some id)) = failure NoBansRemaining ↔
     phase s = WINNER_BAN ∧ (3 ≤ length (bans s))%nat ∨
     mode s = "G1" ∧ phase s = LOSER_BAN ∧ (7 ≤ length (bans s))%nat) ∧
  (ok (fst (handleBan now s (Some id))) = false →
     fst (handleBan now s (Some id)) = failure NoBansRemaining) ∧
  (phase s = LOSER_BAN →
     getBansRemaining s = 7 - Z.of_nat (length (bans s))) ∧
  getBansRemaining
    (snd (handleForceNextPhase (createInitialState (Some "G1")))) = 7.
Proof.
  intros Hcat%includes_true Hnew%includes_false Hph Hg1.
  assert (¬ (phase s ≠ WINNER_BAN ∧ phase s ≠ LOSER_BAN)) as Hn.
  { intros [? ?]. by destruct Hph. }
  unfold handleBan. rewrite Hcat, Hnew. simpl.
  destruct (decide (phase s ≠ WINNER_BAN ∧ phase s ≠ LOSER_BAN)); [done|].
  unfold getBansRemaining.
  split_and!; [| | | reflexivity].
  - destruct Hph as [Hw | Hl].
    + rewrite Hw. simpl.
      destruct (Z.leb_spec (3 - Z.of_nat (length (bans s))) 0); simpl; split.
      * intros _. left. split; [done | lia].
      * done.
      * intros [=].
      * intros [[_ ?] | (_ & [=] & _)]. lia.
    + specialize (Hg1 Hl). rewrite Hl, Hg1. simpl.
      destruct (Z.leb_spec (7 - Z.of_nat (length (bans s))) 0); simpl; split.
      * intros _. right. split_and!; [done | done | lia].
      * done.
      * intros [=].
      * intros [[[=] _] | (_ & _ & ?)]. lia.
  - by destruct (_ <=? 0).
  - intros Hl. specialize (Hg1 Hl). rewrite Hl, Hg1. reflexivity.
Qed.

(** C6. [handleForceNextPhase] in phase DONE fails with "Cannot advance
    phase" and leaves the state as it was, whatever the mode; in phase
    WINNER_BAN of mode G1 it succeeds whatever the bans are, sets the phase
    to LOSER_BAN and pushes a FORCE_PHASE history entry, without stage id,
    that records WINNER_BAN as the previous phase. *)
Theorem force_next_phase_cases s :
  (phase s = DONE →
     handleForceNextPhase s = (failure CannotAdvancePhase, s)) ∧
  (mode s = "G1" → phase s = WINNER_BAN →
     handleForceNextPhase s =
       (success,
        {| mode := "G1"; phase := LOSER_BAN; bans := bans s; pick := pick s;
           history := history s ++ [mkEntry FORCE_PHASE None WINNER_BAN] |})).
Proof.
  unfold handleForceNextPhase, transitions. split.
  - intros ->. by repeat case_decide.
  - intros Hm Hp. rewrite Hm, Hp. simpl.
    unfold set_history, set_phase. simpl. by rewrite Hm.
Qed.

(** C7. Whatever the phase (ban phases, pick phases and DONE alike),
    banning a catalog id that is in [bans] fails with "Stage already
    banned: id" and picking it fails with "Cannot pick banned stage: id":
    the test on [bans] comes before the test on the phase, and the state
    is left as it was. In a reachable state every banned id is a catalog
    id. *)
Theorem banned_id_rejected_in_every_phase now s id ph :
  id ∈ stageIds → id ∈ bans s →
  handleBan now (set_phase ph s) (Some id) =
    (failure (StageAlreadyBanned (Some id)), set_phase ph s) ∧
  handlePick now (set_phase ph s) (Some id) =
    (failure (CannotPickBanned (Some id)), set_phase ph s).
Proof.
  intros Hcat%includes_true Hban%includes_true.
  unfold handleBan, handlePick. simpl. by rewrite Hcat, Hban.
Qed.

(** ** The store and the dispatcher *)

Lemma getState_lookup matchId (matchStates : gmap string State) :
  snd (getState matchId matchStates) !! matchId =
  Some (fst (getState matchId matchStates)).
Proof.
  unfold getState. destruct (matchStates !! matchId) eqn:E; simpl; [done|].
  by rewrite lookup_insert_eq.
Qed.

Lemma getState_lookup_ne matchId m (matchStates : gmap string State) :
  matchId ≠ m → snd (getState matchId matchStates) !! m = matchStates !! m.
Proof.
  intros Hne. unfold getState. destruct (matchStates !! matchId); simpl; [done|].
  by rewrite lookup_insert_ne.
Qed.

(** Materialising the default state of one match changes what no match
    reads. *)
Lemma getState_getState matchId m (matchStates : gmap string State) :
  fst (getState m (snd (getState matchId matchStates))) =
  fst (getState m matchStates).
Proof.
  destruct (decide (matchId = m)) as [<- | Hne].
  - unfold getState at 1. by rewrite getState_lookup.
  - unfold getState at 1. rewrite getState_lookup_ne by done.
    unfold getState. by destruct (matchStates !! m).
Qed.

Lemma insert_getState matchId s (matchStates : gmap string State) :
  <[matchId := s]> (snd (getState matchId matchStates)) =
  <[matchId := s]> matchStates.
Proof.
  unfold getState. destruct (matchStates !! matchId); simpl; [done|].
  by rewrite insert_insert_eq.
Qed.

Lemma insert_getState_id matchId (matchStates : gmap string State) :
  <[matchId := fst (getState matchId matchStates)]>
    (snd (getState matchId matchStates)) =
  snd (getState matchId matchStates).
Proof. apply insert_id, getState_lookup. Qed.

Lemma handleReset_eq matchId (matchStates : gmap string State) :
  handleReset matchId matchStates =
  (success,
   <[matchId := createInitialState
                  (Some (mode (fst (getState matchId matchStates))))]>
     matchStates).
Proof.
  unfold handleReset.
  rewrite <- (insert_getState matchId _ matchStates).
  by destruct (getState matchId matchStates).
Qed.

Lemma handleSetMode_fail s m :
  ok (handleSetMode s m) = false →
  m ≠ Some "G1" ∧ m ≠ Some "G2PLUS" ∧
  handleSetMode s m = failure (InvalidMode m).
Proof. unfold handleSetMode. by case_decide as H; [destruct H|]. Qed.

(** A failing action leaves in the store what [getState] put there. *)
Lemma runAction_fail now matchId msg (matchStates : gmap string State) :
  ok (fst (runAction now matchId msg matchStates)) = false →
  snd (runAction now matchId msg matchStates) =
  snd (getState matchId matchStates).
Proof.
  unfold runAction.
  pose proof (insert_getState_id matchId matchStates) as Hid.
  destruct (getState matchId matchStates) as [s ms1]. simpl in Hid.
  repeat case_decide.
  - destruct (handleBan now s (msg_stageId msg)) as [r s'] eqn:E. simpl.
    intros Hok. by destruct (handleBan_fail _ _ _ _ _ E Hok) as [-> _].
  - destruct (handlePick now s (msg_stageId msg)) as [r s'] eqn:E. simpl.
    intros Hok. by destruct (handlePick_fail _ _ _ _ _ E Hok) as [-> _].
  - destruct (handleUndo s) as [r s'] eqn:E. simpl.
    intros Hok. by destruct (handleUndo_fail _ _ _ E Hok) as [-> _].
  - rewrite handleReset_eq. simpl. done.
  - destruct (ok (handleSetMode s (msg_mode msg))) eqn:E; [|done].
    destruct (newState _); simpl; congruence.
  - destruct (handleForceNextPhase s) as [r s'] eqn:E. simpl.
    intros Hok. by destruct (handleForceNextPhase_fail _ _ _ E Hok) as [-> _].
  - done.
Qed.

(** C5. A failing handler returns the state it was given: Ban, Pick, Undo
    and ForceAdvance leave [state] as it was and SetMode hands back no new
    state. When the action of a message fails, the dispatcher emits the
    ['action:result'] reply to the requester and nothing else (no
    ['state:update'], no ['event:push']), and every match reads the state
    it read before: the store is the one [getState] left, which differs
    from the store before at most by holding the default state of a match
    referenced for the first time. *)
Theorem failure_is_atomic :
  (∀ now s sid,
     ok (fst (handleBan now s sid)) = false → snd (handleBan now s sid) = s) ∧
  (∀ now s sid,
     ok (fst (handlePick now s sid)) = false → snd (handlePick now s sid) = s) ∧
  (∀ s, ok (fst (handleUndo s)) = false → snd (handleUndo s) = s) ∧
  (∀ s m, ok (handleSetMode s m) = false → newState (handleSetMode s m) = None) ∧
  (∀ s,
     ok (fst (handleForceNextPhase s)) = false →
     snd (handleForceNextPhase s) = s) ∧
  (∀ now cur msg (matchStates : gmap string State),
     let matchId := resolveMatchId (msg_matchId msg) cur in
     let result := fst (runAction now matchId msg matchStates) in
     ok result = false →
     onAction now cur msg matchStates =
       (snd (getState matchId matchStates),
        [SocketActionResult (msg_type msg) false (error result)]) ∧
     ∀ m, fst (getState m (fst (onAction now cur msg matchStates))) =
          fst (getState m matchStates)).
Proof.
  split_and!.
  - intros now s sid Hok. destruct (handleBan now s sid) as [r s'] eqn:E.
    by destruct (handleBan_fail _ _ _ _ _ E Hok).
  - intros now s sid Hok. destruct (handlePick now s sid) as [r s'] eqn:E.
    by destruct (handlePick_fail _ _ _ _ _ E Hok).
  - intros s Hok. destruct (handleUndo s) as [r s'] eqn:E.
    by destruct (handleUndo_fail _ _ _ E Hok).
  - intros s m Hok. by destruct (handleSetMode_fail _ _ Hok) as (_ & _ & ->).
  - intros s Hok. destruct (handleForceNextPhase s) as [r s'] eqn:E.
    by destruct (handleForceNextPhase_fail _ _ _ E Hok).
  - intros now cur msg matchStates matchId result Hok.
    assert (onAction now cur msg matchStates =
      (snd (getState matchId matchStates),
       [SocketActionResult (msg_type msg) false (error result)])) as Heq.
    { unfold onAction. fold matchId.
      pose proof (runAction_fail now matchId msg matchStates Hok) as Hst.
      subst result.
      destruct (runAction now matchId msg matchStates) as [r ms']. simpl in *.
      by rewrite Hok, Hst. }
    split; [done|]. intros m. rewrite Heq. simpl. apply getState_getState.
Qed.

(** C8. [handleReset] always succeeds and replaces the state of the
    match by a fresh one (phase WINNER_BAN, no bans, no pick, empty
    history) whose mode is the mode of the state the store held for that
    match before the call, be it G1 or G2PLUS, and not the default mode; a
    match the store did not hold yet is reset to the default mode G1,
    which [getState] gives it first. No other match is touched. A RESET
    message does exactly that and broadcasts the fresh view. *)
Theorem reset_keeps_mode :
  (∀ matchId s (matchStates : gmap string State),
     matchStates !! matchId = Some s →
     let fresh :=
       {| mode := mode s; phase := WINNER_BAN; bans := [];
          pick := None; history := [] |} in
     handleReset matchId matchStates = (success, <[matchId := fresh]> matchStates) ∧
     ok (fst (handleReset matchId matchStates)) = true ∧
     snd (handleReset matchId matchStates) !! matchId = Some fresh ∧
     (∀ other, other ≠ matchId →
        snd (handleReset matchId matchStates) !! other = matchStates !! other) ∧
     ∀ now cur mid sid m,
       resolveMatchId mid cur = matchId →
       onAction now cur (mkMsg mid (Some "RESET") sid m) matchStates =
         (<[matchId := fresh]> matchStates,
          [SocketActionResult (Some "RESET") true None;
           RoomStateUpdate matchId (computed matchId fresh)])) ∧
  (∀ matchId (matchStates : gmap string State),
     matchStates !! matchId = None →
     handleReset matchId matchStates =
       (success,
        <[matchId := {| mode := "G1"; phase := WINNER_BAN; bans := [];
                        pick := None; history := [] |}]> matchStates)) ∧
  (∀ matchId (matchStates : gmap string State),
     let previous := fst (getState matchId matchStates) in
     let fresh :=
       {| mode := mode previous; phase := WINNER_BAN; bans := [];
          pick := None; history := [] |} in
     handleReset matchId matchStates = (success, <[matchId := fresh]> matchStates) ∧
     ok (fst (handleReset matchId matchStates)) = true ∧
     snd (handleReset matchId matchStates) !! matchId = Some fresh) ∧
  (∀ now cur mid sid m (matchStates : gmap string State),
     let matchId := resolveMatchId mid cur in
     let previous := fst (getState matchId matchStates) in
     let fresh :=
       {| mode := mode previous; phase := WINNER_BAN; bans := [];
          pick := None; history := [] |} in
     onAction now cur (mkMsg mid (Some "RESET") sid m) matchStates =
       (<[matchId := fresh]> matchStates,
        [SocketActionResult (Some "RESET") true None;
         RoomStateUpdate matchId (computed matchId fresh)])).
Proof.
  assert (∀ now cur mid sid m (matchStates : gmap string State),
     let matchId := resolveMatchId mid cur in
     let previous := fst (getState matchId matchStates) in
     let fresh :=
       {| mode := mode previous; phase := WINNER_BAN; bans := [];
          pick := None; history := [] |} in
     onAction now cur (mkMsg mid (Some "RESET") sid m) matchStates =
       (<[matchId := fresh]> matchStates,
        [SocketActionResult (Some "RESET") true None;
         RoomStateUpdate matchId (computed matchId fresh)])) as Hmsg.
  { intros now cur mid sid m matchStates matchId previous fresh.
    unfold onAction, runAction. simpl. fold matchId.
    rewrite (surjective_pairing (getState matchId matchStates)).
    rewrite handleReset_eq, getState_getState, insert_getState. simpl.
    unfold getComputedState. unfold getState at 1.
    by rewrite lookup_insert_eq. }
  split_and!.
  - intros matchId s matchStates Hs fresh.
    assert (fst (getState matchId matchStates) = s) as Hprev.
    { unfold getState. by rewrite Hs. }
    rewrite handleReset_eq, Hprev. simpl. split_and!.
    + done.
    + done.
    + by rewrite lookup_insert_eq.
    + intros other Hne. by rewrite lookup_insert_ne.
    + intros now cur mid sid m <-.
      rewrite (Hmsg now cur mid sid m matchStates). simpl. by rewrite Hprev.
  - intros matchId matchStates Hnone.
    rewrite handleReset_eq. unfold getState. by rewrite Hnone.
  - intros matchId matchStates previous fresh.
    rewrite handleReset_eq. simpl. split_and!; [done | done |].
    by rewrite lookup_insert_eq.
  - exact Hmsg.
Qed.

(** C9. [handleSetMode] fails with "Invalid mode: ..." for every value,
    absent ones included, other than the strings G1 and G2PLUS, and the
    dispatcher then leaves the match as it was; for G1 and for G2PLUS it
    returns a fresh state of that mode (phase WINNER_BAN, no bans, no
    pick, empty history), which the dispatcher stores in place of the
    previous state, whatever that was. *)
Theorem set_mode_cases :
  (∀ s m, m ≠ Some "G1" → m ≠ Some "G2PLUS" →
     handleSetMode s m = failure (InvalidMode m)) ∧
  (∀ s g, g = "G1" ∨ g = "G2PLUS" →
     handleSetMode s (Some g) =
       success_newState
         {| mode := g; phase := WINNER_BAN; bans := []; pick := None;
            history := [] |}) ∧
  (∀ now matchId mid sid m (matchStates : gmap string State),
     m ≠ Some "G1" → m ≠ Some "G2PLUS" →
     runAction now matchId (mkMsg mid (Some "SET_MODE") sid m) matchStates =
       (failure (InvalidMode m), snd (getState matchId matchStates))) ∧
  (∀ now matchId mid sid g (matchStates : gmap string State),
     g = "G1" ∨ g = "G2PLUS" →
     snd (runAction now matchId (mkMsg mid (Some "SET_MODE") sid (Some g))
            matchStates) =
       <[matchId := {| mode := g; phase := WINNER_BAN; bans := [];
                       pick := None; history := [] |}]> matchStates).
Proof.
  assert (∀ s m, m ≠ Some "G1" → m ≠ Some "G2PLUS" →
    handleSetMode s m = failure (InvalidMode m)) as Hbad.
  { intros s m H1 H2. unfold handleSetMode. case_decide as H; [done|].
    destruct H. by split. }
  assert (∀ s g, g = "G1" ∨ g = "G2PLUS" →
    handleSetMode s (Some g) =
      success_newState
        {| mode := g; phase := WINNER_BAN; bans := []; pick := None;
           history := [] |}) as Hgood.
  { intros s g Hg. unfold handleSetMode. case_decide as H; [|done].
    destruct H as [H1 H2]. destruct Hg; congruence. }
  split_and!; [done | done | |].
  - intros now matchId mid sid m matchStates H1 H2. unfold runAction. simpl.
    destruct (getState matchId matchStates) as [s ms1].
    by rewrite Hbad.
  - intros now matchId mid sid g matchStates Hg. unfold runAction. simpl.
    rewrite <- (insert_getState matchId _ matchStates).
    destruct (getState matchId matchStates) as [s ms1].
    by rewrite Hgood.
Qed.

(** C10. The list of available stages is the catalog, in catalog order,
    without the banned ids: it is [list_difference stageIds bans], a
    sublist of the catalog that holds exactly the catalog ids that are not
    banned, and this is the [available] field of the view sent to
    clients. When no id is banned twice and every banned id is a catalog
    id (as in every reachable state), its length is the size of the
    catalog minus the number of bans. *)
Theorem available_is_catalog_minus_bans s :
  NoDup (bans s) → (∀ id, id ∈ bans s → id ∈ stageIds) →
  getAvailableStages s = list_difference stageIds (bans s) ∧
  getAvailableStages s `sublist_of` stageIds ∧
  (∀ id, id ∈ getAvailableStages s ↔ id ∈ stageIds ∧ id ∉ bans s) ∧
  (∀ matchId, available (computed matchId s) = getAvailableStages s) ∧
  length (getAvailableStages s) = (length stageIds - length (bans s))%nat.
Proof using stageIds_NoDup.
  intros Hnd Hsub. unfold getAvailableStages.
  assert (∀ l : list string,
    filter (λ id, includes (bans s) id = false) l =
    list_difference l (bans s)) as Hdiff.
  { induction l as [|x l IH]; [done|]. simpl.
    rewrite filter_cons, IH.
    destruct (decide_rel elem_of x (bans s)) as [Hin | Hout].
    - rewrite decide_False; [done|]. rewrite includes_false. by intros Hn.
    - rewrite decide_True; [done|]. by rewrite includes_false. }
  split_and!.
  - apply Hdiff.
  - apply sublist_filter.
  - intros id. rewrite list_elem_of_filter, includes_false. tauto.
  - done.
  - pose proof (filter_app_complement
      (λ id, includes (bans s) id = false) stageIds) as Hperm.
    apply Permutation_length in Hperm. rewrite length_app in Hperm.
    assert (filter (λ id, ¬ includes (bans s) id = false) stageIds ≡ₚ bans s)
      as Hbanned.
    { apply NoDup_Permutation; [by apply NoDup_filter | done |].
      intros id. rewrite list_elem_of_filter, includes_false.
      split; [intros [Hin _]; by apply dec_stable in Hin | auto]. }
    apply Permutation_length in Hbanned. lia.
Qed.

(** ** Every stored state is reachable *)

Lemma getState_Reach matchId (matchStates : gmap string State) :
  map_Forall (λ _ s, Reach s) matchStates →
  Reach (fst (getState matchId matchStates)) ∧
  map_Forall (λ _ s, Reach s) (snd (getState matchId matchStates)).
Proof.
  intros Hall. unfold getState.
  destruct (matchStates !! matchId) as [s|] eqn:E; simpl.
  - split; [|done]. by apply (Hall matchId).
  - split; [constructor|]. apply map_Forall_insert_2; [constructor | done].
Qed.

Lemma runAction_Reach now matchId msg (matchStates : gmap string State) :
  map_Forall (λ _ s, Reach s) matchStates →
  map_Forall (λ _ s, Reach s) (snd (runAction now matchId msg matchStates)).
Proof.
  intros Hall. unfold runAction.
  destruct (getState_Reach matchId matchStates Hall) as [Hs Hms].
  destruct (getState matchId matchStates) as [s ms1]. simpl in Hs, Hms.
  repeat case_decide.
  - pose proof (Reach_ban now s (msg_stageId msg) Hs).
    destruct (handleBan _ _ _). by apply map_Forall_insert_2.
  - pose proof (Reach_pick now s (msg_stageId msg) Hs).
    destruct (handlePick _ _ _). by apply map_Forall_insert_2.
  - pose proof (Reach_undo s Hs).
    destruct (handleUndo _). by apply map_Forall_insert_2.
  - rewrite handleReset_eq. simpl. apply map_Forall_insert_2; [|done].
    destruct (getState_Reach matchId ms1 Hms) as [Hs' _]. by apply Reach_reset.
  - destruct (ok _); [|done].
    destruct (newState _) as [fresh|] eqn:E; [|done]. simpl.
    apply map_Forall_insert_2; [|done]. by apply (Reach_setMode s (msg_mode msg)).
  - pose proof (Reach_force s Hs).
    destruct (handleForceNextPhase _). by apply map_Forall_insert_2.
  - done.
Qed.

Lemma serve_Reach i (matchStates : gmap string State) :
  map_Forall (λ _ s, Reach s) matchStates →
  map_Forall (λ _ s, Reach s) (serve matchStates i).
Proof.
  intros Hall. destruct i as [now cur msg | matchId]; simpl.
  - unfold onAction.
    pose proof (runAction_Reach now (resolveMatchId (msg_matchId msg) cur)
                  msg matchStates Hall) as Hrun.
    destruct (runAction _ _ _ _) as [r ms1]. simpl in Hrun.
    destruct (ok r); [|done]. unfold getComputedState.
    destruct (getState_Reach (resolveMatchId (msg_matchId msg) cur) ms1 Hrun)
      as [_ Hms].
    by destruct (getState _ ms1).
  - unfold onJoin, getComputedState.
    destruct (getState_Reach (if truthy matchId then show matchId else "default")
                matchStates Hall) as [_ Hms].
    by destruct (getState _ matchStates).
Qed.

(** Whatever messages the server has processed since startup, each state
    of the store is a reachable state. *)
Lemma serveAll_Reach l matchId s : serveAll l !! matchId = Some s → Reach s.
Proof.
  unfold serveAll.
  assert (map_Forall (λ _ s, Reach s) (foldl serve ∅ l)) as Hall.
  { induction l as [|i l IH] using rev_ind.
    - apply map_Forall_empty.
    - rewrite foldl_snoc. by apply serve_Reach. }
  apply Hall.
Qed.

Lemma Reach_bans_in_catalog s id : Reach s → id ∈ bans s → id ∈ stageIds.
Proof. intros (_ & Hsub & _)%Reach_Inv. apply Hsub. Qed.

Lemma Reach_NoDup_bans s : Reach s → NoDup (bans s).
Proof. by intros ((Hnd & _) & _)%Reach_Inv. Qed.

(** ** Further properties of the handlers *)

Lemma getBansRemaining_pos s : 0 < getBansRemaining s → isBanPhase (phase s).
Proof.
  unfold getBansRemaining, isBanPhase.
  repeat case_decide; intros ?; destruct_and?; auto; lia.
Qed.

Lemma getPicksRemaining_one s :
  getPicksRemaining s = 1 ↔
  (phase s = WINNER_PICK ∨ phase s = LOSER_PICK) ∧ truthy (pick s) = false.
Proof.
  unfold getPicksRemaining. case_decide as Hp.
  - destruct (truthy (pick s)); split; [done | intros [_ ?]; done | done | done].
  - split; [done | intros [? _]; done].
Qed.

(** X1. A ban succeeds exactly when the id is a catalog id that is not
    banned and the derived [bansRemaining] is positive (which already
    says that the phase is a ban phase). A successful ban appends the id
    to [bans], appends a BAN history entry with the phase before, leaves
    mode and pick alone and returns the BAN event with the id and the
    time of the call. *)
Theorem ban_succeeds_iff now s sid :
  (ok (fst (handleBan now s sid)) = true ↔
   ∃ id, sid = Some id ∧ id ∈ stageIds ∧ (id ∉ bans s) ∧ 0 < getBansRemaining s) ∧
  (ok (fst (handleBan now s sid)) = true →
   ∃ id, sid = Some id ∧
     bans (snd (handleBan now s sid)) = bans s ++ [id] ∧
     history (snd (handleBan now s sid)) =
       history s ++ [mkEntry BAN (Some id) (phase s)] ∧
     mode (snd (handleBan now s sid)) = mode s ∧
     pick (snd (handleBan now s sid)) = pick s ∧
     fst (handleBan now s sid) = success_event (mkEvent BAN (Some id) now)).
Proof.
  destruct (handleBan now s sid) as [r s'] eqn:Hb. simpl. split; [split|].
  - intros Hok.
    destruct (handleBan_ok _ _ _ _ _ Hb Hok) as (id & -> & ? & ? & ? & ? & _).
    by exists id.
  - intros (id & -> & Hcat & Hnew & Hrem).
    pose proof (handleBan_success now s id Hcat Hnew
                  (getBansRemaining_pos s Hrem) Hrem) as Hok.
    by rewrite Hb in Hok.
  - intros Hok.
    destruct (handleBan_ok _ _ _ _ _ Hb Hok) as (id & -> & _ & _ & _ & _ & -> & ->).
    exists id.
    match goal with |- context [advancePhase ?t] =>
      destruct (advancePhase_fields t) as (-> & -> & -> & ->) end.
    done.
Qed.

(** X2. A pick succeeds exactly when the id is a catalog id that is not
    banned and the derived [picksRemaining] is 1 (a pick phase with
    nothing picked). A successful pick sets [pick] to the id, appends a
    PICK history entry with the phase before, leaves mode and bans alone
    and returns the PICK event. *)
Theorem pick_succeeds_iff now s sid :
  (ok (fst (handlePick now s sid)) = true ↔
   ∃ id, sid = Some id ∧ id ∈ stageIds ∧ (id ∉ bans s) ∧ getPicksRemaining s = 1) ∧
  (ok (fst (handlePick now s sid)) = true →
   ∃ id, sid = Some id ∧
     pick (snd (handlePick now s sid)) = Some id ∧
     bans (snd (handlePick now s sid)) = bans s ∧
     history (snd (handlePick now s sid)) =
       history s ++ [mkEntry PICK (Some id) (phase s)] ∧
     mode (snd (handlePick now s sid)) = mode s ∧
     fst (handlePick now s sid) = success_event (mkEvent PICK (Some id) now)).
Proof.
  destruct (handlePick now s sid) as [r s'] eqn:Hp. simpl. split; [split|].
  - intros Hok.
    destruct (handlePick_ok _ _ _ _ _ Hp Hok) as (id & -> & ? & ? & ? & ? & _).
    exists id. split_and!; [done | done | done |]. by apply getPicksRemaining_one.
  - intros (id & -> & Hcat%includes_true & Hnew%includes_false
              & [Hph Hpk]%getPicksRemaining_one).
    unfold handlePick in Hp. rewrite Hcat, Hnew, Hpk in Hp. simpl in Hp.
    case_decide as Hn; [by destruct Hn as [? ?], Hph|].
    by injection Hp as <- _.
  - intros Hok.
    destruct (handlePick_ok _ _ _ _ _ Hp Hok) as (id & -> & _ & _ & _ & _ & -> & ->).
    exists id.
    match goal with |- context [advancePhase ?t] =>
      destruct (advancePhase_fields t) as (-> & -> & -> & ->) end.
    done.
Qed.

(** X3. Which error a failing ban or pick reports: an absent id or an id
    that is not in the catalog gives "Invalid stage" whatever the state;
    a catalog id that is banned gives the already-banned error of the
    handler; a catalog id that is not banned gives the wrong-phase error,
    with the current phase, exactly outside the handler's phases; a ban
    reports "No bans remaining" only in a ban phase with no allowance
    left, and a pick reports "Already picked" only in a pick phase whose
    pick is set. *)
Theorem ban_pick_error_precedence now s sid :
  let catalogued := ∃ id, sid = Some id ∧ id ∈ stageIds in
  let banned := ∃ id, sid = Some id ∧ id ∈ bans s in
  let banPhase := phase s = WINNER_BAN ∨ phase s = LOSER_BAN in
  let pickPhase := phase s = WINNER_PICK ∨ phase s = LOSER_PICK in
  (error (fst (handleBan now s sid)) = Some (InvalidStage sid) ↔ ¬ catalogued) ∧
  (error (fst (handleBan now s sid)) = Some (StageAlreadyBanned sid) ↔
     catalogued ∧ banned) ∧
  (error (fst (handleBan now s sid)) = Some (CannotBanInPhase (phase s)) ↔
     catalogued ∧ ¬ banned ∧ ¬ banPhase) ∧
  (error (fst (handleBan now s sid)) = Some NoBansRemaining ↔
     catalogued ∧ ¬ banned ∧ banPhase ∧ getBansRemaining s ≤ 0) ∧
  (error (fst (handlePick now s sid)) = Some (InvalidStage sid) ↔ ¬ catalogued) ∧
  (error (fst (handlePick now s sid)) = Some (CannotPickBanned sid) ↔
     catalogued ∧ banned) ∧
  (error (fst (handlePick now s sid)) = Some (CannotPickInPhase (phase s)) ↔
     catalogued ∧ ¬ banned ∧ ¬ pickPhase) ∧
  (error (fst (handlePick now s sid)) = Some AlreadyPicked ↔
     catalogued ∧ ¬ banned ∧ pickPhase ∧ truthy (pick s) = true).
Proof.
  intros catalogued banned banPhase pickPhase.
  assert (catalogued ↔ ∃ id, sid = Some id ∧ includes stageIds id = true) as Ec.
  { subst catalogued. by setoid_rewrite includes_true. }
  assert (banned ↔ ∃ id, sid = Some id ∧ includes (bans s) id = true) as Eb.
  { subst banned. by setoid_rewrite includes_true. }
  assert (banPhase ∧ ¬ (phase s ≠ WINNER_BAN ∧ phase s ≠ LOSER_BAN) ∨
          ¬ banPhase ∧ (phase s ≠ WINNER_BAN ∧ phase s ≠ LOSER_BAN)) as Ebp.
  { subst banPhase.
    destruct (phase s);
      first [ left; split; [auto | intros [? ?]; congruence]
            | right; split; [intros [? | ?]; discriminate | split; discriminate] ]. }
  assert (pickPhase ∧ ¬ (phase s ≠ WINNER_PICK ∧ phase s ≠ LOSER_PICK) ∨
          ¬ pickPhase ∧ (phase s ≠ WINNER_PICK ∧ phase s ≠ LOSER_PICK)) as Epp.
  { subst pickPhase.
    destruct (phase s);
      first [ left; split; [auto | intros [? ?]; congruence]
            | right; split; [intros [? | ?]; discriminate | split; discriminate] ]. }
  clearbody catalogued banned banPhase pickPhase.
  unfold handleBan, handlePick.
  destruct sid as [id|]; simpl.
  2:{ assert (¬ catalogued) as Hc by (rewrite Ec; by intros (? & [=] & _)).
      split_and!; (split; [intros [=] || intros _; tauto | tauto]). }
  destruct (includes stageIds id) eqn:Hcat; simpl.
  2:{ assert (¬ catalogued) as Hc.
      { rewrite Ec. intros (? & [= <-] & ?). congruence. }
      split_and!; (split; [intros [=] || intros _; tauto | tauto]). }
  assert catalogued as Hc by (rewrite Ec; eauto).
  destruct (includes (bans s) id) eqn:Hban; simpl.
  { assert banned as Hb by (rewrite Eb; eauto).
    split_and!; (split; [intros [=] || intros _; tauto | tauto]). }
  assert (¬ banned) as Hb.
  { rewrite Eb. intros (? & [= <-] & ?). congruence. }
  clear Ec Eb.
  split_and!.
  - repeat case_match; simpl; (split; [intros [=] | tauto]).
  - repeat case_match; simpl; (split; [intros [=] | tauto]).
  - case_decide as Hph.
    + simpl. split; [intros _ | done]. tauto.
    + destruct (_ <=? 0); simpl; (split; [intros [=] | tauto]).
  - case_decide as Hph.
    + simpl. split; [intros [=] | tauto].
    + destruct (Z.leb_spec (getBansRemaining s) 0); simpl;
        (split; [intros [=] || intros _ | ]); [tauto | done | ].
      intros (_ & _ & _ & ?). lia.
  - repeat case_match; simpl; (split; [intros [=] | tauto]).
  - repeat case_match; simpl; (split; [intros [=] | tauto]).
  - case_decide as Hph.
    + simpl. split; [intros _ | done]. tauto.
    + destruct (truthy (pick s)); simpl; (split; [intros [=] | tauto]).
  - case_decide as Hph.
    + simpl. split; [intros [=] | tauto].
    + destruct (truthy (pick s)); simpl;
        (split; [intros [=] || intros _ | ]); [tauto | done | ].
      by intros (_ & _ & _ & ?).
Qed.

(** X4. Phase DONE is final for bans, picks and forced advances: in a
    state whose phase is DONE every ban, every pick and the forced
    advance fail, whatever the stage id, and leave the state as it was.
    Only Undo, Reset and SetMode lead out of DONE. *)
Theorem done_is_final now s sid :
  phase s = DONE →
  ok (fst (handleBan now s sid)) = false ∧ snd (handleBan now s sid) = s ∧
  ok (fst (handlePick now s sid)) = false ∧ snd (handlePick now s sid) = s ∧
  handleForceNextPhase s = (failure CannotAdvancePhase, s).
Proof.
  intros Hd. unfold handleBan, handlePick, handleForceNextPhase, transitions.
  rewrite Hd.
  assert (∀ n : ¬ (DONE ≠ WINNER_BAN ∧ DONE ≠ LOSER_BAN), False) as Hb.
  { intros n. by apply n. }
  assert (∀ n : ¬ (DONE ≠ WINNER_PICK ∧ DONE ≠ LOSER_PICK), False) as Hp.
  { intros n. by apply n. }
  split_and!; repeat case_match; simpl; try done;
    first [by destruct Hb | by destruct Hp | congruence].
Qed.

(** X5. The [canUndo] flag of the derived view says whether an undo
    succeeds: on an empty history [handleUndo] fails with "Nothing to
    undo" and changes nothing; otherwise it succeeds, removes exactly the
    last history entry, restores that entry's previous phase and keeps
    the mode. *)
Theorem undo_succeeds_iff_canUndo matchId s :
  canUndo (computed matchId s) = ok (fst (handleUndo s)) ∧
  (history s = [] → handleUndo s = (failure NothingToUndo, s)) ∧
  (∀ h e, history s = h ++ [e] →
     ok (fst (handleUndo s)) = true ∧
     history (snd (handleUndo s)) = h ∧
     phase (snd (handleUndo s)) = prevPhase e ∧
     mode (snd (handleUndo s)) = mode s).
Proof.
  split_and!.
  - simpl. destruct (history s) as [|e h _] eqn:Hh using rev_ind.
    + unfold handleUndo. by rewrite Hh.
    + rewrite (handleUndo_snoc s h e Hh), length_app. simpl.
      apply bool_decide_eq_true. lia.
  - intros Hh. unfold handleUndo. by rewrite Hh.
  - intros h e Hh. rewrite (handleUndo_snoc s h e Hh). simpl.
    by destruct (action e).
Qed.

(** X6. In every reachable state the mode is G1 or G2PLUS and the phase
    is one of the mode's own: LOSER_PICK never occurs in G1, LOSER_BAN
    and WINNER_PICK never occur in G2PLUS. Ban, Pick, Undo and
    ForceAdvance never change the mode. *)
Theorem phase_belongs_to_mode s :
  Reach s →
  (mode s = "G1" ∧ phase s ≠ LOSER_PICK ∨
   mode s = "G2PLUS" ∧ phase s ≠ LOSER_BAN ∧ phase s ≠ WINNER_PICK) ∧
  (∀ now sid, mode (snd (handleBan now s sid)) = mode s) ∧
  (∀ now sid, mode (snd (handlePick now s sid)) = mode s) ∧
  mode (snd (handleUndo s)) = mode s ∧
  mode (snd (handleForceNextPhase s)) = mode s.
Proof.
  intros Hr. split_and!.
  - by destruct (Reach_PhasesInMode s Hr) as [Hp _].
  - intros now sid. unfold handleBan. repeat case_match; try done. simpl.
    match goal with |- context [advancePhase ?t] =>
      by destruct (advancePhase_fields t) as (-> & _) end.
  - intros now sid. unfold handlePick. repeat case_match; try done. simpl.
    match goal with |- context [advancePhase ?t] =>
      by destruct (advancePhase_fields t) as (-> & _) end.
  - unfold handleUndo. by repeat case_match.
  - unfold handleForceNextPhase. by repeat case_match.
Qed.

(** X7. In a reachable state a forced advance succeeds exactly when the
    phase is not DONE. It touches neither bans nor pick, and the phase it
    sets is never WINNER_BAN. *)
Theorem force_succeeds_unless_done s :
  Reach s →
  (ok (fst (handleForceNextPhase s)) = true ↔ phase s ≠ DONE) ∧
  bans (snd (handleForceNextPhase s)) = bans s ∧
  pick (snd (handleForceNextPhase s)) = pick s ∧
  (ok (fst (handleForceNextPhase s)) = true →
   phase (snd (handleForceNextPhase s)) ≠ WINNER_BAN ∧
   phase (snd (handleForceNextPhase s)) ≠ phase s).
Proof.
  intros [Hp _]%Reach_PhasesInMode.
  unfold handleForceNextPhase, transitions, phaseOfMode in *.
  destruct Hp as [[-> Hp] | (-> & Hp1 & Hp2)]; simpl;
    destruct (phase s); simpl; split_and!; try done;
    (split; [done | by intros Hn]).
Qed.

(** X8. In a reachable state every banned id is a catalog id, and the
    pick, when set, is a catalog id that is still listed among the
    available stages: picking removes nothing from [available]. *)
Theorem bans_and_pick_in_catalog s :
  Reach s →
  (∀ id, id ∈ bans s → id ∈ stageIds) ∧
  (∀ id, pick s = Some id → id ∈ stageIds ∧ id ∈ getAvailableStages s).
Proof.
  intros ((_ & _ & Hpb) & Hsub & Hpc & _)%Reach_Inv. split; [done|].
  intros id Hid. split; [by apply Hpc|].
  unfold getAvailableStages. apply list_elem_of_filter. split.
  - apply includes_false. by apply Hpb.
  - by apply Hpc.
Qed.

(** X9. How the list of available stages moves: a successful ban removes
    exactly the banned id from it, which was listed before (so with a
    duplicate-free catalog the list gets one shorter); a pick and a
    forced advance leave it as it is; with no bans it is the whole
    catalog. *)
Theorem available_after_operations now s sid :
  (bans s = [] → getAvailableStages s = stageIds) ∧
  (ok (fst (handleBan now s sid)) = true →
   ∃ id, sid = Some id ∧ id ∈ getAvailableStages s ∧
     getAvailableStages (snd (handleBan now s sid)) =
       filter (λ x, x ≠ id) (getAvailableStages s) ∧
     (NoDup stageIds →
      S (length (getAvailableStages (snd (handleBan now s sid)))) =
      length (getAvailableStages s))) ∧
  getAvailableStages (snd (handlePick now s sid)) = getAvailableStages s ∧
  getAvailableStages (snd (handleForceNextPhase s)) = getAvailableStages s.
Proof.
  assert (∀ t u, bans t = bans u → getAvailableStages t = getAvailableStages u)
    as Hsame.
  { intros t u Hb. unfold getAvailableStages. by rewrite Hb. }
  split_and!.
  - intros Hb. unfold getAvailableStages. rewrite Hb.
    assert (∀ l : list string, filter (λ id, includes [] id = false) l = l)
      as Hall; [|apply Hall].
    induction l as [|x l IH]; [done|].
    rewrite filter_cons_True; [by rewrite IH|].
    apply includes_false, not_elem_of_nil.
  - intros Hok. destruct (handleBan now s sid) as [r s'] eqn:Hb.
    destruct (handleBan_ok _ _ _ _ _ Hb Hok)
      as (id & -> & Hcat & Hnew & _ & _ & _ & ->).
    exists id. simpl.
    assert (id ∈ getAvailableStages s) as Hav.
    { apply list_elem_of_filter. split; [by apply includes_false | done]. }
    match goal with |- context [advancePhase ?t] =>
      rewrite (Hsame (advancePhase t) t)
        by (by destruct (advancePhase_fields t) as (_ & -> & _)) end.
    assert (getAvailableStages
              (set_history
                 (history s ++ [mkEntry BAN (Some id) (phase s)])
                 (set_bans (bans s ++ [id]) s)) =
            filter (λ x, x ≠ id) (getAvailableStages s)) as Heq.
    { unfold getAvailableStages. simpl. rewrite list_filter_filter.
      apply list_filter_iff. intros x. rewrite !includes_false.
      rewrite not_elem_of_app, list_elem_of_singleton. tauto. }
    split_and!; [done | done | done |].
    intros Hnd. rewrite Heq.
    assert (NoDup (getAvailableStages s)) as Hnd' by by apply NoDup_filter.
    clear -Hav Hnd'.
    induction (getAvailableStages s) as [|y l IH]; [by apply elem_of_nil in Hav|].
    apply NoDup_cons in Hnd' as [Hy Hnd'].
    destruct (decide (y = id)) as [-> | Hne].
    + rewrite filter_cons_False by (by intros ?). f_equal.
      clear IH Hav. induction l as [|z l IH]; [done|].
      apply not_elem_of_cons in Hy as [? ?]. apply NoDup_cons in Hnd' as [_ ?].
      rewrite filter_cons_True by done. simpl. f_equal. by apply IH.
    + rewrite filter_cons_True by done. simpl. f_equal. apply IH; [|done].
      by apply elem_of_cons in Hav as [-> | ?].
  - apply Hsame. unfold handlePick. repeat case_match; try done. simpl.
    match goal with |- context [advancePhase ?t] =>
      by destruct (advancePhase_fields t) as (_ & -> & _) end.
  - apply Hsame. unfold handleForceNextPhase. by repeat case_match.
Qed.

(** ** The history records the bans *)

Lemma bannedInHistory_snoc h e :
  bannedInHistory (h ++ [e]) =
  bannedInHistory h ++
  match action e, stageId e with
  | BAN, Some id => [id]
  | _, _ => []
  end.
Proof.
  unfold bannedInHistory. rewrite omap_app. f_equal. simpl.
  case_decide as Ha.
  - rewrite Ha. by destruct (stageId e).
  - by destruct (action e).
Qed.

Lemma filter_Forall_id {A} (P : A → Prop) `{∀ x, Decision (P x)} (l : list A) :
  Forall P l → filter P l = l.
Proof.
  induction 1 as [|x l Hx _ IH]; [done|]. by rewrite filter_cons_True, IH.
Qed.

Lemma quotaOpen_not_ban p n : ¬ isBanPhase p → quotaOpen p n.
Proof. intros Hn. split; intros ->; destruct Hn; [by left | by right]. Qed.

Lemma HistInv_push s s' e :
  HistInv s → prevPhase e = phase s →
  history s' = history s ++ [e] →
  bans s' = bannedInHistory (history s') →
  quotaOpen (phase s') (length (bans s')) →
  HistInv s'.
Proof.
  intros (Hb & Hq & Hh) He Hh' Hb' Hq'. split_and!; [done | done |].
  intros h1 e1 h2 Hsplit. rewrite Hh' in Hsplit.
  destruct h2 as [|e2 h2 _] using rev_ind.
  - apply app_inj_tail in Hsplit as [<- <-]. by rewrite He, <- Hb.
  - rewrite app_comm_cons, app_assoc in Hsplit.
    apply app_inj_tail in Hsplit as [Hs _]. by apply (Hh h1 e1 h2).
Qed.

Lemma HistInv_init m : HistInv (createInitialState m).
Proof.
  split_and!; simpl.
  - done.
  - split; intros _; lia.
  - intros h1 e h2 Hnil. by destruct h1.
Qed.

Lemma advancePhase_ban_quota s id h :
  isBanPhase (phase s) → 0 < getBansRemaining s →
  quotaOpen (phase s) (length (bans s)) →
  quotaOpen
    (phase (advancePhase (set_history h (set_bans (bans s ++ [id]) s))))
    (S (length (bans s))).
Proof.
  intros Hph Hrem [Hw Hl].
  unfold advancePhase, getBansRemaining, quotaOpen in *.
  destruct s as [m ph b pk hh]; simpl in *.
  rewrite !length_app. simpl.
  assert (∀ n : nat, (3 <=? Z.of_nat n) = bool_decide (3 ≤ n)%nat) as E3.
  { intros n. case_bool_decide; [apply Z.leb_le | apply Z.leb_gt]; lia. }
  assert (∀ n : nat, (7 <=? Z.of_nat n) = bool_decide (7 ≤ n)%nat) as E7.
  { intros n. case_bool_decide; [apply Z.leb_le | apply Z.leb_gt]; lia. }
  rewrite !E3, ?E7. clear E3 E7.
  destruct Hph as [-> | ->]; simpl in *;
    [specialize (Hw eq_refl); clear Hl | specialize (Hl eq_refl); clear Hw];
    repeat case_decide; destruct_and?; simplify_eq; try lia;
    repeat case_bool_decide; simpl; (split; intros ?; simplify_eq; lia).
Qed.

Lemma HistInv_ban now s sid : HistInv s → HistInv (snd (handleBan now s sid)).
Proof.
  intros HI. destruct (handleBan now s sid) as [r s'] eqn:Hban.
  destruct (ok r) eqn:Hok; simpl.
  2:{ by destruct (handleBan_fail _ _ _ _ _ Hban Hok) as [-> _]. }
  destruct (handleBan_ok _ _ _ _ _ Hban Hok)
    as (id & -> & _ & _ & Hph & Hrem & _ & ->).
  match goal with |- HistInv (advancePhase ?t) =>
    destruct (advancePhase_fields t) as (Em & Eb & _ & Eh);
    apply (HistInv_push s _ (mkEntry BAN (Some id) (phase s)) HI);
    rewrite ?Eb, ?Eh; simpl; [done | done | |] end.
  - destruct HI as (Hb & _). by rewrite bannedInHistory_snoc, <- Hb.
  - destruct HI as (_ & Hq & _). rewrite length_app, Nat.add_1_r.
    by apply advancePhase_ban_quota.
Qed.

Lemma HistInv_pick now s sid : HistInv s → HistInv (snd (handlePick now s sid)).
Proof.
  intros HI. destruct (handlePick now s sid) as [r s'] eqn:Hpick.
  destruct (ok r) eqn:Hok; simpl.
  2:{ by destruct (handlePick_fail _ _ _ _ _ Hpick Hok) as [-> _]. }
  destruct (handlePick_ok _ _ _ _ _ Hpick Hok)
    as (id & -> & _ & _ & Hph & _ & _ & ->).
  match goal with |- HistInv (advancePhase ?t) =>
    destruct (advancePhase_set_phase t) as (p & -> & Hp) end.
  apply (HistInv_push s _ (mkEntry PICK (Some id) (phase s)) HI); simpl;
    [done | done | |].
  - destruct HI as (Hb & _). rewrite bannedInHistory_snoc, <- Hb. simpl.
    by rewrite app_nil_r.
  - apply quotaOpen_not_ban. intros Hb. apply Hp in Hb. simpl in Hb.
    destruct Hph as [E | E], Hb as [E' | E']; congruence.
Qed.

Lemma HistInv_force s : HistInv s → HistInv (snd (handleForceNextPhase s)).
Proof.
  intros HI. destruct (handleForceNextPhase s) as [r s'] eqn:Hf.
  destruct (ok r) eqn:Hok; simpl.
  2:{ by destruct (handleForceNextPhase_fail _ _ _ Hf Hok) as [-> _]. }
  destruct (handleForceNextPhase_ok _ _ _ Hf Hok) as (next & Ht & _ & _ & ->).
  apply (HistInv_push s _ (mkEntry FORCE_PHASE None (phase s)) HI); simpl;
    [done | done | |].
  - destruct HI as (Hb & _). rewrite bannedInHistory_snoc, <- Hb. simpl.
    by rewrite app_nil_r.
  - destruct HI as (_ & [Hw _] & _). unfold transitions in Ht.
    split; intros ->; repeat case_decide; destruct (phase s); simplify_eq.
    specialize (Hw eq_refl). lia.
Qed.

Lemma HistInv_undo s : NoDup (bans s) → HistInv s → HistInv (snd (handleUndo s)).
Proof.
  intros Hnd HI.
  destruct (last (history s)) as [e|] eqn:Hlast.
  2:{ unfold handleUndo. by rewrite Hlast. }
  apply last_removelast in Hlast as Hhist.
  destruct HI as (Hb & Hq & Hh). clear Hlast.
  set (h := removelast (history s)) in *.
  rewrite (handleUndo_snoc s h e Hhist). simpl.
  rewrite Hhist in Hb.
  assert (∀ h1 e1 h2, h = h1 ++ e1 :: h2 →
    quotaOpen (prevPhase e1) (length (bannedInHistory h1))) as Hh0.
  { intros h1 e1 h2 Hsplit. apply (Hh h1 e1 (h2 ++ [e])).
    by rewrite Hhist, Hsplit, <- app_assoc. }
  assert (quotaOpen (prevPhase e) (length (bannedInHistory h))) as Hqe.
  { apply (Hh h e []). by rewrite Hhist. }
  rewrite bannedInHistory_snoc in Hb.
  assert (bans (match action e with
                | BAN => set_bans (filter (λ id, Some id ≠ stageId e) (bans s))
                           (set_history h s)
                | PICK => set_pick None (set_history h s)
                | FORCE_PHASE => set_history h s
                end) = bannedInHistory h) as Hb'.
  { destruct (action e); simpl; rewrite ?Hb, ?app_nil_r; try done.
    destruct (stageId e) as [id|].
    - rewrite Hb in Hnd. apply NoDup_app in Hnd as (_ & Hfresh & _).
      apply filter_pushed. intros Hin. apply (Hfresh id Hin).
      by apply list_elem_of_singleton.
    - rewrite app_nil_r. apply filter_Forall_id, Forall_forall. done. }
  assert (history (match action e with
                   | BAN => set_bans (filter (λ id, Some id ≠ stageId e) (bans s))
                              (set_history h s)
                   | PICK => set_pick None (set_history h s)
                   | FORCE_PHASE => set_history h s
                   end) = h) as Hh' by by destruct (action e).
  split_and!; simpl; rewrite ?Hb', ?Hh'; done.
Qed.

Lemma Reach_HistInv s : Reach s → HistInv s.
Proof.
  induction 1 as [| | | s Hr IH | | s m fresh _ _ Hnew | ].
  - apply HistInv_init.
  - by apply HistInv_ban.
  - by apply HistInv_pick.
  - apply HistInv_undo; [|done]. by apply Reach_NoDup_bans.
  - by apply HistInv_force.
  - unfold handleSetMode in Hnew. case_decide; [done|].
    injection Hnew as <-. apply HistInv_init.
  - apply HistInv_init.
Qed.

(** X10. The bans of a reachable state are the stage ids of the BAN
    entries of its history, in the order they were made; so the history
    holds as many BAN entries as there are bans. *)
Theorem history_records_bans s :
  Reach s →
  bans s = bannedInHistory (history s) ∧
  length (filter (λ e, action e = BAN) (history s)) = length (bans s).
Proof.
  intros Hr. destruct (Reach_HistInv s Hr) as (Hb & _). split; [done|].
  pose proof (Reach_NoDup_bans s Hr) as Hnd.
  assert (∀ h, Forall (λ e, action e = BAN → is_Some (stageId e)) h →
    length (filter (λ e, action e = BAN) h) = length (bannedInHistory h)) as Hlen.
  { induction h as [|e h IH]; [done|]. intros [He Hh]%Forall_cons.
    unfold bannedInHistory in *. rewrite filter_cons. simpl.
    case_decide as Ha.
    - destruct (He Ha) as [id ->]. simpl. f_equal. by apply IH.
    - by apply IH. }
  rewrite Hb. apply Hlen. clear Hb Hnd Hlen.
  induction Hr as [| now s sid Hr IH | now s sid Hr IH | s Hr IH | s Hr IH
                   | s m fresh _ _ Hnew | ].
  - constructor.
  - destruct (handleBan now s sid) as [r s'] eqn:Hban.
    destruct (ok r) eqn:Hok; simpl.
    + destruct (handleBan_ok _ _ _ _ _ Hban Hok)
        as (id & -> & _ & _ & _ & _ & _ & ->).
      match goal with |- context [advancePhase ?t] =>
        destruct (advancePhase_fields t) as (_ & _ & _ & ->) end.
      simpl. apply Forall_app. split; [done|]. apply Forall_singleton.
      simpl. eauto.
    + by destruct (handleBan_fail _ _ _ _ _ Hban Hok) as [-> _].
  - destruct (handlePick now s sid) as [r s'] eqn:Hpick.
    destruct (ok r) eqn:Hok; simpl.
    + destruct (handlePick_ok _ _ _ _ _ Hpick Hok)
        as (id & -> & _ & _ & _ & _ & _ & ->).
      match goal with |- context [advancePhase ?t] =>
        destruct (advancePhase_fields t) as (_ & _ & _ & ->) end.
      simpl. apply Forall_app. split; [done|]. apply Forall_singleton.
      simpl. eauto.
    + by destruct (handlePick_fail _ _ _ _ _ Hpick Hok) as [-> _].
  - destruct (history s) as [|e h _] eqn:Hhist using rev_ind.
    + unfold handleUndo. rewrite Hhist. simpl. rewrite Hhist. constructor.
    + rewrite (handleUndo_snoc s h e Hhist). simpl.
      rewrite Forall_app in IH. destruct IH as [IH _].
      by destruct (action e).
  - destruct (handleForceNextPhase s) as [r s'] eqn:Hf.
    destruct (ok r) eqn:Hok; simpl.
    + destruct (handleForceNextPhase_ok _ _ _ Hf Hok) as (next & _ & _ & _ & ->).
      simpl. apply Forall_app. split; [done|]. apply Forall_singleton. done.
    + by destruct (handleForceNextPhase_fail _ _ _ Hf Hok) as [-> _].
  - unfold handleSetMode in Hnew. case_decide; [done|].
    injection Hnew as <-. constructor.
  - constructor.
Qed.

(** X11. In a reachable state a ban phase always has bans left: the
    derived [bansRemaining] is between 1 and 3 in WINNER_BAN, between 1
    and 7 in LOSER_BAN and 0 in every other phase, never negative; and no
    ban is ever refused with "No bans remaining in this phase". *)
Theorem bans_remaining_in_reach s :
  Reach s →
  (phase s = WINNER_BAN → 1 ≤ getBansRemaining s ≤ 3) ∧
  (phase s = LOSER_BAN → 1 ≤ getBansRemaining s ≤ 7) ∧
  (¬ isBanPhase (phase s) → getBansRemaining s = 0) ∧
  (∀ now sid, error (fst (handleBan now s sid)) ≠ Some NoBansRemaining).
Proof.
  intros Hr. destruct (Reach_HistInv s Hr) as (_ & [Hw Hl] & _).
  pose proof (Reach_LOSER_BAN s Hr) as Hg1.
  assert (phase s = WINNER_BAN → 1 ≤ getBansRemaining s ≤ 3) as H1.
  { intros Hp. specialize (Hw Hp). unfold getBansRemaining.
    rewrite decide_True by done. lia. }
  assert (phase s = LOSER_BAN → 1 ≤ getBansRemaining s ≤ 7) as H2.
  { intros Hp. specialize (Hl Hp). specialize (Hg1 Hp). unfold getBansRemaining.
    rewrite decide_False by congruence. rewrite decide_True by done. lia. }
  split_and!; [done | done | |].
  - intros Hn. unfold getBansRemaining, isBanPhase in *.
    repeat case_decide; destruct_and?; try done; destruct Hn; auto.
  - intros now sid. unfold handleBan.
    destruct sid as [id|]; [|done].
    destruct (includes stageIds id); simpl; [|done].
    destruct (includes (bans s) id); [done|].
    case_decide as Hph; [done|].
    destruct (Z.leb_spec (getBansRemaining s) 0); simpl; [|done].
    apply not_not_ban_phase in Hph as [Hp | Hp];
      [specialize (H1 Hp) | specialize (H2 Hp)]; lia.
Qed.

(** ** A set pick means DONE *)

Lemma catalog_id_truthy id : id ∈ stageIds → truthy (Some id) = true.
Proof using stageIds_truthy.
  intros Hid. simpl. rewrite bool_decide_eq_false_2; [done|]. by intros ->.
Qed.

Lemma Reach_quota_pos s :
  Reach s → isBanPhase (phase s) → 0 < getBansRemaining s.
Proof.
  intros Hr Hph. destruct (Reach_HistInv s Hr) as (_ & [Hw Hl] & _).
  unfold getBansRemaining. destruct Hph as [Hp | Hp].
  - specialize (Hw Hp). rewrite decide_True by done. lia.
  - specialize (Hl Hp). pose proof (Reach_LOSER_BAN s Hr Hp).
    rewrite decide_False by congruence. rewrite decide_True by done. lia.
Qed.

(** After a successful pick in a reachable state the phase is DONE. *)
Lemma handlePick_phase_DONE now s sid :
  Reach s → ok (fst (handlePick now s sid)) = true →
  phase (snd (handlePick now s sid)) = DONE.
Proof using stageIds_truthy.
  intros Hr Hok. destruct (handlePick now s sid) as [r s'] eqn:Hp.
  destruct (handlePick_ok _ _ _ _ _ Hp Hok)
    as (id & -> & Hcat & _ & Hph & _ & _ & ->).
  destruct (Reach_PhasesInMode s Hr) as [Hmode _].
  pose proof (catalog_id_truthy id Hcat) as Ht. simpl in Ht.
  unfold advancePhase. simpl. rewrite Ht.
  destruct Hmode as [[Hm Hn] | (Hm & Hn1 & Hn2)]; rewrite Hm; simpl;
    destruct Hph as [E | E]; rewrite E in *; first [done | reflexivity].
Qed.

Lemma Reach_PickDone s : Reach s → PickDone s.
Proof using stageIds_truthy.
  induction 1 as [| now s sid Hr IH | now s sid Hr IH | s Hr IH | s Hr IH
                  | s m fresh _ _ Hnew | ]; unfold PickDone in *.
  - by intros [? [=]].
  - destruct (handleBan now s sid) as [r s'] eqn:Hban.
    destruct (ok r) eqn:Hok; simpl.
    2:{ by destruct (handleBan_fail _ _ _ _ _ Hban Hok) as [-> _]. }
    destruct (handleBan_ok _ _ _ _ _ Hban Hok)
      as (id & -> & _ & _ & Hph & _ & _ & ->).
    match goal with |- context [advancePhase ?t] =>
      destruct (advancePhase_fields t) as (_ & _ & -> & _) end.
    simpl. intros Hs. destruct (IH Hs) as [Hd _].
    rewrite Hd in Hph. by destruct Hph.
  - pose proof (handlePick_phase_DONE now s sid Hr) as Hdone.
    destruct (handlePick now s sid) as [r s'] eqn:Hpick.
    destruct (ok r) eqn:Hok; simpl in *.
    2:{ by destruct (handlePick_fail _ _ _ _ _ Hpick Hok) as [-> _]. }
    intros _. split; [by apply Hdone|].
    destruct (handlePick_ok _ _ _ _ _ Hpick Hok)
      as (id & -> & _ & _ & _ & _ & _ & ->).
    match goal with |- context [advancePhase ?t] =>
      destruct (advancePhase_fields t) as (_ & _ & _ & ->) end.
    simpl. by eexists _, _.
  - destruct (last (history s)) as [e|] eqn:Hlast.
    2:{ unfold handleUndo. by rewrite Hlast. }
    apply last_removelast in Hlast.
    rewrite (handleUndo_snoc s _ e Hlast). simpl.
    destruct (pick s) as [p|] eqn:Hp.
    + destruct IH as [_ (h' & e' & Hh' & Ha)]; [by eauto|].
      rewrite Hlast in Hh'. apply app_inj_tail in Hh' as [_ <-].
      rewrite Ha. simpl. by intros [? [=]].
    + destruct (action e); simpl; rewrite ?Hp; by intros [? [=]].
  - destruct (handleForceNextPhase s) as [r s'] eqn:Hf.
    destruct (ok r) eqn:Hok; simpl.
    2:{ by destruct (handleForceNextPhase_fail _ _ _ Hf Hok) as [-> _]. }
    destruct (handleForceNextPhase_ok _ _ _ Hf Hok) as (next & Ht & Hne & _ & ->).
    simpl. intros Hs. destruct (IH Hs) as [Hd _]. exfalso.
    unfold transitions in Ht. rewrite Hd in *.
    repeat case_decide; simplify_eq.
  - unfold handleSetMode in Hnew. case_decide; [done|].
    injection Hnew as <-. by intros [? [=]].
  - by intros [? [=]].
Qed.

(** X12. In a reachable state (every catalog id being a non-empty
    string) the pick is only ever set in phase DONE: a successful pick
    always ends the selection. So in a pick phase the derived
    [picksRemaining] is 1, and no pick is ever refused with "Already
    picked". *)
Theorem pick_only_in_done s :
  Reach s →
  (is_Some (pick s) → phase s = DONE) ∧
  (phase s = WINNER_PICK ∨ phase s = LOSER_PICK → getPicksRemaining s = 1) ∧
  (∀ now sid, ok (fst (handlePick now s sid)) = true →
     phase (snd (handlePick now s sid)) = DONE) ∧
  (∀ now sid, error (fst (handlePick now s sid)) ≠ Some AlreadyPicked).
Proof using stageIds_truthy.
  intros Hr. pose proof (Reach_PickDone s Hr) as Hpd.
  assert (phase s = WINNER_PICK ∨ phase s = LOSER_PICK → pick s = None) as Hnone.
  { intros Hph. destruct (pick s) eqn:Hp; [|done].
    destruct Hpd as [Hd _]; [by rewrite Hp; eauto|].
    rewrite Hd in Hph. by destruct Hph. }
  split_and!.
  - intros Hs. by destruct (Hpd Hs).
  - intros Hph. apply getPicksRemaining_one. split; [done|].
    by rewrite (Hnone Hph).
  - intros now sid. by apply handlePick_phase_DONE.
  - intros now sid. unfold handlePick.
    destruct sid as [id|]; [|done].
    destruct (includes stageIds id); simpl; [|done].
    destruct (includes (bans s) id); [done|].
    case_decide as Hph; [done|].
    apply not_not_pick_phase in Hph. by rewrite (Hnone Hph).
Qed.

(** X13. In a reachable state every stage listed as available can be
    acted on: in a ban phase banning it succeeds, in a pick phase picking
    it succeeds (every catalog id being a non-empty string). *)
Theorem available_stage_is_accepted now s id :
  Reach s → id ∈ getAvailableStages s →
  (isBanPhase (phase s) → ok (fst (handleBan now s (Some id))) = true) ∧
  (phase s = WINNER_PICK ∨ phase s = LOSER_PICK →
   ok (fst (handlePick now s (Some id))) = true).
Proof using stageIds_truthy.
  intros Hr [Hnew%includes_false Hcat]%list_elem_of_filter. split.
  - intros Hph. apply handleBan_success; [done | done | done |].
    by apply Reach_quota_pos.
  - intros Hph.
    assert (pick s = None) as Hp.
    { destruct (pick s) eqn:Hp; [|done].
      destruct (Reach_PickDone s Hr) as [Hd _]; [by rewrite Hp; eauto|].
      rewrite Hd in Hph. by destruct Hph. }
    unfold handlePick.
    apply includes_true in Hcat as ->. apply includes_false in Hnew as ->.
    rewrite Hp. simpl. case_decide as Hn; [|done].
    destruct Hn as [? ?], Hph; done.
Qed.

(** ** Undoing, step by step *)

Lemma handleUndo_after_ban now s sid :
  ok (fst (handleBan now s sid)) = true →
  handleUndo (snd (handleBan now s sid)) = (success, s).
Proof.
  intros Hok. destruct (handleBan now s sid) as [r s'] eqn:Hb.
  destruct (handleBan_ok _ _ _ _ _ Hb Hok) as (id & -> & _ & Hnb & _ & _ & _ & ->).
  simpl.
  match goal with |- handleUndo (advancePhase ?t) = _ =>
    destruct (advancePhase_set_phase t) as (p & -> & _) end.
  erewrite handleUndo_snoc by reflexivity. simpl.
  rewrite filter_pushed by done. by destruct s.
Qed.

Lemma handleUndo_after_pick now s sid :
  Reach s → ok (fst (handlePick now s sid)) = true →
  handleUndo (snd (handlePick now s sid)) = (success, s).
Proof using stageIds_truthy.
  intros Hr Hok. destruct (handlePick now s sid) as [r s'] eqn:Hp.
  destruct (handlePick_ok _ _ _ _ _ Hp Hok) as (id & -> & _ & _ & _ & Hpk & _ & ->).
  assert (pick s = None) as Hnone.
  { destruct (truthy_None _ Hpk) as [? | Hempty]; [done|].
    destruct (Reach_Inv s Hr) as (_ & _ & Hpc & _). by apply Hpc in Hempty. }
  simpl.
  match goal with |- handleUndo (advancePhase ?t) = _ =>
    destruct (advancePhase_set_phase t) as (p & -> & _) end.
  erewrite handleUndo_snoc by reflexivity. simpl.
  destruct s; simpl in *; by subst.
Qed.

Lemma handleUndo_after_force s :
  ok (fst (handleForceNextPhase s)) = true →
  handleUndo (snd (handleForceNextPhase s)) = (success, s).
Proof.
  intros Hok. destruct (handleForceNextPhase s) as [r s'] eqn:Hf.
  destruct (handleForceNextPhase_ok _ _ _ Hf Hok) as (next & _ & _ & _ & ->).
  simpl. erewrite handleUndo_snoc by reflexivity. simpl. by destruct s.
Qed.

Lemma undoTimes_S n s :
  undoTimes (S n) s =
  if ok (fst (handleUndo s)) then undoTimes n (snd (handleUndo s)) else None.
Proof. cbn [undoTimes]. by destruct (handleUndo s). Qed.

Lemma undoTimes_add n k s :
  undoTimes (n + k) s = undoTimes n s ≫= undoTimes k.
Proof.
  revert s. induction n as [|n IH]; intros s; [done|].
  change (S n + k)%nat with (S (n + k)). rewrite !undoTimes_S.
  destruct (ok _); [apply IH | done].
Qed.

Lemma Reach_rewinds :
  ∀ s, Reach s →
  undoTimes (length (history s)) s = Some (createInitialState (Some (mode s))).
Proof using stageIds_truthy.
  assert (∀ s s', handleUndo s' = (success, s) →
    undoTimes (length (history s)) s = Some (createInitialState (Some (mode s))) →
    undoTimes (length (history s')) s' =
      Some (createInitialState (Some (mode s')))) as Hstep.
  { intros s s' Hu IH.
    destruct (last (history s')) as [e|] eqn:Hlast.
    2:{ unfold handleUndo in Hu. by rewrite Hlast in Hu. }
    apply last_removelast in Hlast.
    pose proof Hu as Hu'. rewrite (handleUndo_snoc s' _ e Hlast) in Hu'.
    assert (history s = removelast (history s') ∧ mode s = mode s') as [Hh Hm].
    { injection Hu' as <-. by destruct (action e). }
    rewrite Hlast, length_app. simpl. rewrite Nat.add_1_r, undoTimes_S, Hu. simpl.
    by rewrite <- Hh, <- Hm. }
  induction 1 as [| now s sid Hr IH | now s sid Hr IH | s Hr IH | s Hr IH
                  | s m fresh _ _ Hnew | ].
  - done.
  - destruct (ok (fst (handleBan now s sid))) eqn:Hok.
    + apply (Hstep s); [by apply handleUndo_after_ban | done].
    + destruct (handleBan now s sid) as [r s'] eqn:Hb.
      by destruct (handleBan_fail _ _ _ _ _ Hb Hok) as [-> _].
  - destruct (ok (fst (handlePick now s sid))) eqn:Hok.
    + apply (Hstep s); [by apply handleUndo_after_pick | done].
    + destruct (handlePick now s sid) as [r s'] eqn:Hb.
      by destruct (handlePick_fail _ _ _ _ _ Hb Hok) as [-> _].
  - destruct (last (history s)) as [e|] eqn:Hlast.
    2:{ unfold handleUndo. by rewrite Hlast. }
    apply last_removelast in Hlast.
    rewrite Hlast, length_app in IH. simpl in IH.
    rewrite Nat.add_1_r, undoTimes_S in IH.
    rewrite (handleUndo_snoc s _ e Hlast) in *. simpl in IH.
    simpl. by destruct (action e).
  - destruct (ok (fst (handleForceNextPhase s))) eqn:Hok.
    + apply (Hstep s); [by apply handleUndo_after_force | done].
    + destruct (handleForceNextPhase s) as [r s'] eqn:Hb.
      by destruct (handleForceNextPhase_fail _ _ _ Hb Hok) as [-> _].
  - unfold handleSetMode in Hnew. case_decide; [done|].
    by injection Hnew as <-.
  - done.
Qed.

(** X14. Undo walks the whole way back: from a reachable state, as many
    undo requests as the history has entries all succeed and end in the
    fresh state of the same mode (phase WINNER_BAN, no bans, no pick,
    empty history); one more fails. Every catalog id is a non-empty
    string. *)
Theorem undo_everything s :
  Reach s →
  undoTimes (length (history s)) s =
    Some {| mode := mode s; phase := WINNER_BAN; bans := []; pick := None;
            history := [] |} ∧
  undoTimes (S (length (history s))) s = None.
Proof using stageIds_truthy.
  intros Hr. pose proof (Reach_rewinds s Hr) as Hrew. split; [done|].
  rewrite <- Nat.add_1_r, undoTimes_add, Hrew. reflexivity.
Qed.

(** ** Forward reachability *)

Lemma FReach_Reach s : FReach s → Reach s.
Proof.
  induction 1 as [m Hm | | |].
  - apply (Reach_setMode (createInitialState None) (Some m)); [constructor|].
    unfold handleSetMode. case_decide as Hn; [|done].
    destruct Hn as [? ?], Hm; congruence.
  - by apply Reach_ban.
  - by apply Reach_pick.
  - by apply Reach_force.
Qed.

Lemma Reach_FReach s : Reach s → FReach s.
Proof using stageIds_truthy.
  induction 1 as [| now s sid Hr IH | now s sid Hr IH | s Hr IH | s Hr IH
                  | s m fresh _ _ Hnew | s Hr IH].
  - apply (FReach_fresh "G1"). by left.
  - destruct (ok (fst (handleBan now s sid))) eqn:Hok; [by apply FReach_ban|].
    destruct (handleBan now s sid) as [r s'] eqn:Hb.
    by destruct (handleBan_fail _ _ _ _ _ Hb Hok) as [-> _].
  - destruct (ok (fst (handlePick now s sid))) eqn:Hok; [by apply FReach_pick|].
    destruct (handlePick now s sid) as [r s'] eqn:Hb.
    by destruct (handlePick_fail _ _ _ _ _ Hb Hok) as [-> _].
  - clear Hr. destruct IH as [m Hm | now s0 sid H0 Hok | now s0 sid H0 Hok | s0 H0 Hok].
    + by constructor.
    + by rewrite handleUndo_after_ban.
    + rewrite handleUndo_after_pick; [done | by apply FReach_Reach | done].
    + by rewrite handleUndo_after_force.
  - destruct (ok (fst (handleForceNextPhase s))) eqn:Hok; [by apply FReach_force|].
    destruct (handleForceNextPhase s) as [r s'] eqn:Hb.
    by destruct (handleForceNextPhase_fail _ _ _ Hb Hok) as [-> _].
  - unfold handleSetMode in Hnew. case_decide as Hn; [done|].
    injection Hnew as <-. destruct m as [m|]; [|by destruct Hn].
    apply FReach_fresh.
    destruct (decide (m = "G1")), (decide (m = "G2PLUS")); subst; auto.
    destruct Hn; split; congruence.
  - apply FReach_fresh. by apply Inv_mode, Reach_Inv.
Qed.

(** X15. Undo, Reset, SetMode and failing calls add nothing to what can
    be reached: every reachable state is the result of successful bans,
    picks and forced advances alone, applied to the fresh state of one of
    the two modes; and conversely. Every catalog id is a non-empty
    string. *)
Theorem reachable_without_undo s : Reach s ↔ FReach s.
Proof using stageIds_truthy.
  split; [apply Reach_FReach | apply FReach_Reach].
Qed.

(** X16. As long as the history holds no FORCE_PHASE entry, the phase of
    a reachable state is the one its counts give: DONE with a pick set,
    otherwise WINNER_BAN below 3 bans, then in G1 LOSER_BAN below 7 bans
    and WINNER_PICK at 7, in G2PLUS LOSER_PICK at 3. Undo does not break
    this. Every catalog id is a non-empty string. *)
Theorem phase_derived_from_counts s :
  Reach s →
  Forall (λ e, action e ≠ FORCE_PHASE) (history s) →
  phase s = derivedPhase s ∧
  (pick s = None →
   phase s = phaseOfBans (mode s) (length (bans s)) ∧
   (mode s = "G1" → (length (bans s) < 3)%nat → phase s = WINNER_BAN) ∧
   (mode s = "G1" → (3 ≤ length (bans s) < 7)%nat → phase s = LOSER_BAN) ∧
   (mode s = "G1" → length (bans s) = 7%nat → phase s = WINNER_PICK) ∧
   (mode s = "G2PLUS" → (length (bans s) < 3)%nat → phase s = WINNER_BAN) ∧
   (mode s = "G2PLUS" → length (bans s) = 3%nat → phase s = LOSER_PICK)).
Proof using stageIds_truthy.
  intros Hr Hnf.
  assert (phase s = derivedPhase s) as Hd.
  { apply Reach_FReach in Hr. clear -Hr Hnf stageIds_truthy.
    induction Hr as [m Hm | now s sid HF IH Hok | now s sid HF IH Hok | s HF IH Hok].
    - unfold derivedPhase, phaseOfBans. simpl. by repeat case_decide.
    - pose proof (FReach_Reach s HF) as Hr.
      destruct (handleBan now s sid) as [r s'] eqn:Hb. simpl in *.
      destruct (handleBan_ok _ _ _ _ _ Hb Hok)
        as (id & -> & _ & _ & Hph & _ & _ & Hs').
      assert (history s' = history s ++ [mkEntry BAN (Some id) (phase s)]) as Hh.
      { rewrite Hs'.
        match goal with |- context [advancePhase ?t] =>
          by destruct (advancePhase_fields t) as (_ & _ & _ & ->) end. }
      rewrite Hh, Forall_app in Hnf. destruct Hnf as [Hnf _].
      specialize (IH Hnf).
      assert (pick s = None) as Hp.
      { destruct (pick s) eqn:Hp; [|done].
        destruct (Reach_PickDone s Hr) as [Hdone _]; [by rewrite Hp; eauto|].
        rewrite Hdone in Hph. by destruct Hph. }
      assert (Natural s) as Hn.
      { split_and!; [by apply Inv_mode, Reach_Inv | done |].
        rewrite IH. unfold derivedPhase. by rewrite Hp. }
      destruct (Natural_ban _ _ _ _ _ Hn Hb Hok) as ((_ & Hp' & Hph') & _).
      unfold derivedPhase. by rewrite Hp'.
    - pose proof (FReach_Reach s HF) as Hr.
      pose proof (handlePick_phase_DONE now s sid Hr Hok) as Hdone.
      destruct (handlePick now s sid) as [r s'] eqn:Hb. simpl in *.
      destruct (handlePick_ok _ _ _ _ _ Hb Hok)
        as (id & -> & Hcat & _ & _ & _ & _ & Hs').
      assert (pick s' = Some id) as Hp.
      { rewrite Hs'.
        match goal with |- context [advancePhase ?t] =>
          by destruct (advancePhase_fields t) as (_ & _ & -> & _) end. }
      unfold derivedPhase. by rewrite Hp, (catalog_id_truthy id Hcat).
    - exfalso. destruct (handleForceNextPhase s) as [r s'] eqn:Hb. simpl in *.
      destruct (handleForceNextPhase_ok _ _ _ Hb Hok) as (next & _ & _ & _ & ->).
      simpl in Hnf. rewrite Forall_app, Forall_singleton in Hnf.
      by destruct Hnf as [_ Hn]. }
  split; [done|]. intros Hp. unfold derivedPhase in Hd. rewrite Hp in Hd.
  simpl in Hd. split; [done|]. rewrite Hd. unfold phaseOfBans.
  split_and!; intros -> ?; simpl; repeat case_decide; first [done | lia].
Qed.

(** ** More on the dispatcher *)

Lemma getState_present matchId s (matchStates : gmap string State) :
  matchStates !! matchId = Some s → getState matchId matchStates = (s, matchStates).
Proof. intros H. unfold getState. by rewrite H. Qed.

(** Whatever the action, the store afterwards is the store before with
    one state written under the match id. *)
Lemma runAction_store now matchId msg (matchStates : gmap string State) :
  ∃ s', snd (runAction now matchId msg matchStates) = <[matchId := s']> matchStates.
Proof.
  unfold runAction.
  pose proof (insert_getState matchId (fst (getState matchId matchStates))
                matchStates) as Hid.
  rewrite insert_getState_id in Hid.
  assert (∀ x, <[matchId := x]> (snd (getState matchId matchStates)) =
               <[matchId := x]> matchStates) as Hins.
  { intros x. apply insert_getState. }
  destruct (getState matchId matchStates) as [s ms1]. simpl in *.
  repeat case_decide.
  - destruct (handleBan _ _ _) as [r s']. simpl. eauto.
  - destruct (handlePick _ _ _) as [r s']. simpl. eauto.
  - destruct (handleUndo _) as [r s']. simpl. eauto.
  - rewrite handleReset_eq. simpl. rewrite Hid, insert_insert_eq. eauto.
  - destruct (ok _); [|by eauto].
    destruct (newState _); simpl; eauto.
  - destruct (handleForceNextPhase _) as [r s']. simpl. eauto.
  - simpl. eauto.
Qed.

Lemma onAction_store now cur msg (matchStates : gmap string State) :
  fst (onAction now cur msg matchStates) =
  snd (runAction now (resolveMatchId (msg_matchId msg) cur) msg matchStates).
Proof.
  unfold onAction.
  destruct (runAction_store now (resolveMatchId (msg_matchId msg) cur) msg
              matchStates) as [s' Hs'].
  destruct (runAction _ _ _ _) as [r ms1]. simpl in *.
  destruct (ok r); [|done]. unfold getComputedState.
  by rewrite (getState_present _ s') by (rewrite Hs'; apply lookup_insert_eq).
Qed.

Lemma resolveMatchId_nonempty a b : resolveMatchId a b ≠ "".
Proof.
  unfold resolveMatchId.
  assert (∀ v, truthy v = true → show v ≠ "") as Ht.
  { intros [x|]; simpl; [|done]. by case_bool_decide. }
  destruct (truthy a) eqn:Ea; [by apply Ht|].
  destruct (truthy b) eqn:Eb; [by apply Ht | done].
Qed.

(** X17. Matches do not interfere: an action or a join for one match
    leaves the stored state of every other match untouched, never removes
    a match from the store, and afterwards the addressed match is in the
    store. *)
Theorem matches_are_isolated (matchStates : gmap string State) :
  (∀ now cur msg,
     let matchId := resolveMatchId (msg_matchId msg) cur in
     let after := fst (onAction now cur msg matchStates) in
     (∀ m, m ≠ matchId → after !! m = matchStates !! m) ∧
     is_Some (after !! matchId) ∧
     (∀ m, is_Some (matchStates !! m) → is_Some (after !! m))) ∧
  (∀ joined,
     let matchId := if truthy joined then show joined else "default" in
     let after := snd (fst (onJoin joined matchStates)) in
     (∀ m, m ≠ matchId → after !! m = matchStates !! m) ∧
     after !! matchId = Some (fst (getState matchId matchStates)) ∧
     (∀ m, is_Some (matchStates !! m) → after !! m = matchStates !! m)).
Proof.
  split.
  - intros now cur msg matchId after. subst after.
    rewrite onAction_store. fold matchId.
    destruct (runAction_store now matchId msg matchStates) as [s' ->].
    split_and!.
    + intros m Hne. by apply lookup_insert_ne.
    + rewrite lookup_insert_eq. eauto.
    + intros m Hm. destruct (decide (matchId = m)) as [<- | Hne].
      * rewrite lookup_insert_eq. eauto.
      * by rewrite lookup_insert_ne.
  - intros joined matchId after. subst after.
    unfold onJoin, getComputedState. fold matchId.
    pose proof (getState_lookup matchId matchStates) as Hl.
    pose proof (λ m, getState_lookup_ne matchId m matchStates) as Hne.
    destruct (getState matchId matchStates) as [s ms1] eqn:E. simpl in *.
    split_and!; [intros m ?; by apply Hne | done |].
    intros m [x Hx]. destruct (decide (matchId = m)) as [<- | ?]; [|by apply Hne].
    rewrite (getState_present _ _ _ Hx) in E. by injection E as _ <-.
Qed.

Lemma success_is_broadcast_aux now cur msg (matchStates : gmap string State) :
  let matchId := resolveMatchId (msg_matchId msg) cur in
  ok (fst (runAction now matchId msg matchStates)) = true →
  ∃ s', fst (onAction now cur msg matchStates) !! matchId = Some s' ∧
    snd (onAction now cur msg matchStates) =
      SocketActionResult (msg_type msg) true None ::
      RoomStateUpdate matchId (computed matchId s') ::
      (if decide (msg_type msg = Some "BAN")
       then [RoomEventPush matchId (mkEvent BAN (msg_stageId msg) now)]
       else if decide (msg_type msg = Some "PICK")
       then [RoomEventPush matchId (mkEvent PICK (msg_stageId msg) now)]
       else []).
Proof.
  intros matchId Hok.
  destruct (runAction_store now matchId msg matchStates) as [s' Hs'].
  exists s'. rewrite onAction_store. fold matchId. rewrite Hs', lookup_insert_eq.
  split; [done|].
  assert (error (fst (runAction now matchId msg matchStates)) = None ∧
          event (fst (runAction now matchId msg matchStates)) =
            if decide (msg_type msg = Some "BAN")
            then Some (mkEvent BAN (msg_stageId msg) now)
            else if decide (msg_type msg = Some "PICK")
            then Some (mkEvent PICK (msg_stageId msg) now)
            else None) as [Herr Hev].
  { clear Hs'. revert Hok. unfold runAction.
    destruct (getState matchId matchStates) as [s ms1].
    destruct (decide (msg_type msg = Some "BAN")) as [Hb | Hnb].
    { destruct (handleBan now s (msg_stageId msg)) as [r s1] eqn:E. simpl.
      intros Hok.
      by destruct (handleBan_ok _ _ _ _ _ E Hok) as (id & -> & _ & _ & _ & _ & -> & _). }
    destruct (decide (msg_type msg = Some "PICK")) as [Hp | Hnp].
    { destruct (handlePick now s (msg_stageId msg)) as [r s1] eqn:E. simpl.
      intros Hok.
      by destruct (handlePick_ok _ _ _ _ _ E Hok) as (id & -> & _ & _ & _ & _ & -> & _). }
    repeat case_decide.
    - unfold handleUndo. destruct (last (history s)); simpl; [done | discriminate].
    - by rewrite handleReset_eq.
    - unfold handleSetMode. case_decide; simpl; [discriminate | done].
    - destruct (handleForceNextPhase s) as [r s1] eqn:E. simpl. intros Hok.
      by destruct (handleForceNextPhase_ok _ _ _ E Hok) as (? & _ & _ & -> & _).
    - simpl. discriminate. }
  unfold onAction. fold matchId.
  destruct (runAction now matchId msg matchStates) as [r ms1]. simpl in *.
  subst ms1. rewrite Hok, Herr, Hev. unfold getComputedState.
  rewrite (getState_present _ s') by apply lookup_insert_eq.
  by repeat case_decide.
Qed.

(** X18. What a successful action sends: the requester gets
    [{ok: true}] without an error; the room gets exactly one
    ['state:update'], carrying the derived view of the state that is now
    stored for the match; and an ['event:push'] follows only for BAN and
    PICK, carrying the type and stage id of the request and the time of
    the call. *)
Theorem success_is_broadcast now cur msg (matchStates : gmap string State) :
  let matchId := resolveMatchId (msg_matchId msg) cur in
  ok (fst (runAction now matchId msg matchStates)) = true →
  ∃ s', fst (onAction now cur msg matchStates) !! matchId = Some s' ∧
    snd (onAction now cur msg matchStates) =
      SocketActionResult (msg_type msg) true None ::
      RoomStateUpdate matchId (computed matchId s') ::
      (if decide (msg_type msg = Some "BAN")
       then [RoomEventPush matchId (mkEvent BAN (msg_stageId msg) now)]
       else if decide (msg_type msg = Some "PICK")
       then [RoomEventPush matchId (mkEvent PICK (msg_stageId msg) now)]
       else []).
Proof. apply success_is_broadcast_aux. Qed.

(** X19. Joining and addressing: a join with an absent or empty match id
    joins ["default"]; it sends the requester, and nobody else, the view
    of the joined match, and changes what no match reads. The match id an
    action resolves to is never empty: a non-empty id in the message
    wins, otherwise the match joined last is used, otherwise
    ["default"]. *)
Theorem join_and_resolve joined (matchStates : gmap string State) :
  let matchId := if truthy joined then show joined else "default" in
  let cur := fst (fst (onJoin joined matchStates)) in
  onJoin joined matchStates =
    (Some matchId, snd (getState matchId matchStates),
     [SocketStateUpdate (computed matchId (fst (getState matchId matchStates)))]) ∧
  (∀ m, fst (getState m (snd (fst (onJoin joined matchStates)))) =
        fst (getState m matchStates)) ∧
  resolveMatchId None cur = matchId ∧
  resolveMatchId (Some "") cur = matchId ∧
  (∀ m, m ≠ "" → resolveMatchId (Some m) cur = m) ∧
  resolveMatchId None None = "default" ∧
  (∀ a b, resolveMatchId a b ≠ "").
Proof.
  intros matchId cur.
  assert (onJoin joined matchStates =
    (Some matchId, snd (getState matchId matchStates),
     [SocketStateUpdate (computed matchId (fst (getState matchId matchStates)))]))
    as Hjoin.
  { unfold onJoin, getComputedState. fold matchId.
    by destruct (getState matchId matchStates). }
  assert (matchId ≠ "") as Hne.
  { subst matchId. destruct joined as [x|]; simpl; [|done].
    case_bool_decide; simpl; done. }
  assert (truthy (Some matchId) = true) as Ht.
  { simpl. by rewrite bool_decide_eq_false_2. }
  subst cur. rewrite Hjoin. simpl.
  split_and!; try done.
  - intros m. apply getState_getState.
  - unfold resolveMatchId. by rewrite Ht.
  - unfold resolveMatchId. by rewrite Ht.
  - intros m Hm. unfold resolveMatchId. simpl. by rewrite bool_decide_eq_false_2.
  - apply resolveMatchId_nonempty.
Qed.

(** ** The LAN address *)

Lemma find_first {A} (f : A → bool) (l : list A) :
  match List.find f l with
  | Some x => ∃ before after,
      l = before ++ x :: after ∧ Forall (λ y, f y = false) before ∧ f x = true
  | None => Forall (λ y, f y = false) l
  end.
Proof.
  induction l as [|a l IH]; simpl; [constructor|].
  destruct (f a) eqn:Ea.
  - exists [], l. by split_and!.
  - destruct (List.find f l) as [x|].
    + destruct IH as (before & after & -> & Hb & Hx).
      exists (a :: before), after. split_and!; [done | by constructor | done].
    + by constructor.
Qed.

(** X20. [getLanIP] returns the address of the first interface entry, in
    enumeration order, that is IPv4 and not internal; when no entry
    qualifies (no interface at all, only loopback, only IPv6) it returns
    "localhost". *)
Theorem getLanIP_first_external interfaces :
  Forall (λ i, isLanAddress i = false) (concat (map snd interfaces)) ∧
    getLanIP interfaces = "localhost" ∨
  ∃ before i after,
    concat (map snd interfaces) = before ++ i :: after ∧
    Forall (λ j, isLanAddress j = false) before ∧
    family i = "IPv4" ∧ internal i = false ∧
    getLanIP interfaces = address i.
Proof.
  induction interfaces as [|[name ifaces] rest IH].
  - left. split; [constructor | done].
  - change (concat (map snd ((name, ifaces) :: rest)))
      with (ifaces ++ concat (map snd rest)).
    cbn [getLanIP].
    pose proof (find_first isLanAddress ifaces) as Hf.
    destruct (List.find isLanAddress ifaces) as [i|].
    + right. destruct Hf as (before & after & -> & Hb & Hi).
      exists before, i, (after ++ concat (map snd rest)).
      unfold isLanAddress in Hi. apply andb_true_iff in Hi as [Hfam Hint].
      apply bool_decide_eq_true in Hfam. apply negb_true_iff in Hint.
      split_and!; try done. by rewrite <- app_assoc.
    + destruct IH as [[Hall Hloc] | (before & i & after & Heq & Hb & ? & ? & ?)].
      * left. split; [by apply Forall_app | done].
      * right. exists (ifaces ++ before), i, after.
        split_and!; try done.
        -- by rewrite Heq, <- app_assoc.
        -- by apply Forall_app.
Qed.

(** ** The two pages against the server *)

(** X21. A click on the control page never draws an error from the
    server while the page shows the current state: with the view of a
    reachable state, a click on a catalog stage either does nothing (the
    stage is banned or picked), or shows the "completed" toast (phase
    DONE), or emits a BAN or PICK that addresses the page's match, that
    the server accepts and that it answers with [{ok: true}]. Before the
    first state update a click does nothing. Every catalog id is a
    non-empty string. *)
Theorem click_is_accepted now cur param s clicked (matchStates : gmap string State) :
  let matchId := clientMatchId param in
  Reach s → clicked ∈ stageIds → matchStates !! matchId = Some s →
  handleStageClick matchId None clicked = NoEffect ∧
  match handleStageClick matchId (Some (computed matchId s)) clicked with
  | NoEffect => clicked ∈ bans s ∨ pick s = Some clicked
  | ShowToast _ _ => phase s = DONE
  | EmitAction msg =>
    msg_stageId msg = Some clicked ∧
    resolveMatchId (msg_matchId msg) cur = matchId ∧
    ok (fst (runAction now matchId msg matchStates)) = true ∧
    head (snd (onAction now cur msg matchStates)) =
      Some (SocketActionResult (msg_type msg) true None)
  end.
Proof using stageIds_truthy.
  intros matchId Hr Hcat Hs. split; [done|].
  assert (truthy (Some matchId) = true) as Ht.
  { subst matchId. unfold clientMatchId.
    destruct param as [x|]; [|reflexivity].
    destruct (decide (x = "")) as [-> | Hx]; [reflexivity|].
    simpl. rewrite (bool_decide_eq_false_2 (x = "")) by done. simpl.
    by rewrite bool_decide_eq_false_2. }
  assert (∀ msg, msg_matchId msg = Some matchId →
    ok (fst (runAction now matchId msg matchStates)) = true →
    resolveMatchId (msg_matchId msg) cur = matchId ∧
    ok (fst (runAction now matchId msg matchStates)) = true ∧
    head (snd (onAction now cur msg matchStates)) =
      Some (SocketActionResult (msg_type msg) true None)) as Hsend.
  { intros msg Hm Hok.
    assert (resolveMatchId (msg_matchId msg) cur = matchId) as Hres.
    { rewrite Hm. unfold resolveMatchId. by rewrite Ht. }
    split_and!; [done | done |].
    destruct (success_is_broadcast_aux now cur msg matchStates) as (s' & _ & ->);
      [by rewrite Hres | done]. }
  unfold handleStageClick. simpl.
  destruct (includes (bans s) clicked) eqn:Hb; simpl.
  { left. by apply includes_true. }
  case_bool_decide as Hp; [by right|].
  apply includes_false in Hb.
  assert (clicked ∈ getAvailableStages s) as Hav.
  { apply list_elem_of_filter. split; [by apply includes_false | done]. }
  case_bool_decide as Hban.
  { split; [done|]. apply Hsend; [done|].
    unfold runAction. rewrite (getState_present _ _ _ Hs).
    cbn -[handleBan handlePick].
    pose proof (handleBan_success now s clicked Hcat Hb Hban
                  (Reach_quota_pos s Hr Hban)) as Hok.
    by destruct (handleBan now s (Some clicked)). }
  case_bool_decide as Hpick.
  { split; [done|]. apply Hsend; [done|].
    unfold runAction. rewrite (getState_present _ _ _ Hs).
    cbn -[handleBan handlePick].
    assert (ok (fst (handlePick now s (Some clicked))) = true) as Hok.
    { assert (pick s = None) as Hnone.
      { destruct (pick s) eqn:E; [|done].
        destruct (Reach_PickDone s Hr) as [Hd _]; [by rewrite E; eauto|].
        rewrite Hd in Hpick. by destruct Hpick. }
      unfold handlePick.
      apply includes_true in Hcat as ->. apply includes_false in Hb as ->.
      rewrite Hnone. simpl. case_decide as Hn; [|done].
      destruct Hn as [? ?], Hpick; done. }
    by destruct (handlePick now s (Some clicked)). }
  destruct (phase s); try done; first [by destruct Hban; auto | by destruct Hpick; auto].
Qed.

Lemma findStage_catalog (stages : list Stage) id :
  id ∈ s_id <$> stages →
  ∃ stage, findStage stages id = Some stage ∧ s_id stage = id.
Proof.
  intros Hin. unfold findStage.
  pose proof (find_first (λ s, bool_decide (s_id s = id)) stages) as Hf.
  destruct (List.find _ stages) as [stage|].
  - destruct Hf as (_ & _ & _ & _ & Hs%bool_decide_eq_true). eauto.
  - apply list_elem_of_fmap in Hin as (stage & -> & Hst). exfalso.
    rewrite Forall_forall in Hf. specialize (Hf stage Hst).
    by apply bool_decide_eq_false in Hf.
Qed.

(** X22. The overlay's tile strip shows the selection as it is: with the
    view of a reachable state and the stage list the server serves, it
    holds one BANNED tile per ban, in ban order and none left out,
    followed by one STAGE tile for the pick when a pick is set. Without a
    tile container nothing is rendered, and before the first state update
    the strip is empty. *)
Theorem ban_history_tiles (stages : list Stage) matchId s :
  stageIds = s_id <$> stages → Reach s →
  renderBanHistory false stages (Some (computed matchId s)) = None ∧
  renderBanHistory true stages None = Some [] ∧
  ∃ tiles,
    renderBanHistory true stages (Some (computed matchId s)) = Some tiles ∧
    tile_stageId <$> tiles =
      bans s ++ (if truthy (pick s) then [show (pick s)] else []) ∧
    tile_kind <$> tiles =
      replicate (length (bans s)) TileBan ++
      (if truthy (pick s) then [TilePick] else []) ∧
    Forall (λ t, tile_label t =
                 match tile_kind t with TileBan => "BANNED" | TilePick => "STAGE" end)
      tiles.
Proof.
  intros Hcat Hr. split; [done|]. split; [done|].
  destruct (Reach_Inv s Hr) as (_ & Hsub & Hpc & _).
  unfold renderBanHistory. simpl.
  assert (∀ l, (∀ id, id ∈ l → id ∈ stageIds) →
    let tiles := omap (λ id, (λ stage, createHistoryTile stage TileBan)
                               <$> findStage stages id) l in
    tile_stageId <$> tiles = l ∧
    tile_kind <$> tiles = replicate (length l) TileBan ∧
    Forall (λ t, tile_label t =
                 match tile_kind t with TileBan => "BANNED" | TilePick => "STAGE" end)
      tiles) as Hbans.
  { induction l as [|id l IH]; intros Hl; [by split_and!|].
    destruct IH as (IH1 & IH2 & IH3).
    { intros x Hx. apply Hl. by right. }
    destruct (findStage_catalog stages id) as (stage & Hf & Hid).
    { rewrite <- Hcat. apply Hl. by left. }
    simpl. rewrite Hf. simpl. rewrite Hid.
    split_and!; [by f_equal | by f_equal | by constructor]. }
  destruct (Hbans (bans s) Hsub) as (Hb1 & Hb2 & Hb3). clear Hbans.
  case_bool_decide as Hempty.
  { assert (stageIds = []) as Hnil.
    { rewrite Hcat. by destruct stages. }
    assert (bans s = []) as ->.
    { destruct (bans s) as [|x l]; [done|].
      assert (x ∈ stageIds) as Hx by (apply Hsub; by left).
      rewrite Hnil in Hx. by apply elem_of_nil in Hx. }
    assert (pick s = None) as ->.
    { destruct (pick s) as [x|] eqn:Hp; [|done].
      specialize (Hpc x eq_refl). rewrite Hnil in Hpc.
      by apply elem_of_nil in Hpc. }
    exists []. by split_and!. }
  eexists. split; [reflexivity|].
  rewrite !fmap_app, Hb1, Hb2, Forall_app.
  destruct (pick s) as [p|] eqn:Hp; simpl.
  2:{ by split_and!. }
  destruct (bool_decide (p = "")); simpl; [by split_and!|].
  destruct (findStage_catalog stages p) as (stage & -> & Hid).
  { rewrite <- Hcat. by apply Hpc. }
  simpl. rewrite Hid. split_and!; [done | done | done | by constructor].
Qed.


(** ** The store holds exactly the reachable states *)

Lemma serveAll_snoc l i : serveAll (l ++ [i]) = serve (serveAll l) i.
Proof. unfold serveAll. by rewrite foldl_snoc. Qed.

Lemma serve_action_default now msg s s' r (matchStates : gmap string State) :
  msg_matchId msg = None →
  matchStates !! "default" = Some s →
  runAction now "default" msg matchStates = (r, <["default" := s']> matchStates) →
  serve matchStates (Action now None msg) !! "default" = Some s'.
Proof.
  intros Hm Hs Hrun. simpl. rewrite onAction_store, Hm.
  change (resolveMatchId None None) with "default".
  rewrite Hrun. simpl. apply lookup_insert_eq.
Qed.

Lemma Reach_served s : Reach s → ∃ l, serveAll l !! "default" = Some s.
Proof.
  induction 1 as [| now s sid _ [l IH] | now s sid _ [l IH] | s _ [l IH]
                  | s _ [l IH] | s m fresh _ [l IH] Hnew | s _ [l IH]].
  - exists [Join None]. reflexivity.
  - exists (l ++ [Action now None (mkMsg None (Some "BAN") sid None)]).
    rewrite serveAll_snoc.
    apply (serve_action_default _ _ s _ (fst (handleBan now s sid))); [done | done |].
    unfold runAction. rewrite (getState_present _ _ _ IH).
    cbn -[handleBan]. by destruct (handleBan now s sid).
  - exists (l ++ [Action now None (mkMsg None (Some "PICK") sid None)]).
    rewrite serveAll_snoc.
    apply (serve_action_default _ _ s _ (fst (handlePick now s sid))); [done | done |].
    unfold runAction. rewrite (getState_present _ _ _ IH).
    cbn -[handlePick]. by destruct (handlePick now s sid).
  - exists (l ++ [Action 0 None (mkMsg None (Some "UNDO") None None)]).
    rewrite serveAll_snoc.
    apply (serve_action_default _ _ s _ (fst (handleUndo s))); [done | done |].
    unfold runAction. rewrite (getState_present _ _ _ IH).
    cbn -[handleUndo]. by destruct (handleUndo s).
  - exists (l ++ [Action 0 None (mkMsg None (Some "FORCE_NEXT_PHASE") None None)]).
    rewrite serveAll_snoc.
    apply (serve_action_default _ _ s _ (fst (handleForceNextPhase s)));
      [done | done |].
    unfold runAction. rewrite (getState_present _ _ _ IH).
    cbn -[handleForceNextPhase]. by destruct (handleForceNextPhase s).
  - exists (l ++ [Action 0 None (mkMsg None (Some "SET_MODE") None m)]).
    rewrite serveAll_snoc.
    apply (serve_action_default _ _ s _ (handleSetMode s m)); [done | done |].
    unfold runAction. rewrite (getState_present _ _ _ IH).
    cbn -[handleSetMode]. rewrite Hnew.
    unfold handleSetMode in *. by case_decide.
  - exists (l ++ [Action 0 None (mkMsg None (Some "RESET") None None)]).
    rewrite serveAll_snoc.
    apply (serve_action_default _ _ s _ success); [done | done |].
    unfold runAction. rewrite (getState_present _ _ _ IH).
    cbn -[handleReset]. rewrite handleReset_eq.
    by rewrite (getState_present _ _ _ IH).
Qed.

(** X24. The reachable states are exactly the states the server can hold:
    after any sequence of action and join messages since startup every
    stored state is reachable, hence has no duplicate ban, respects the
    ban quota of its mode and has its pick outside the bans; and every
    reachable state is stored for some sequence of messages. *)
Theorem store_holds_reachable_states :
  (∀ l matchId s, serveAll l !! matchId = Some s → Reach s ∧ StateInv s) ∧
  (∀ s, Reach s → ∃ l matchId, serveAll l !! matchId = Some s).
Proof.
  split.
  - intros l matchId s Hs. pose proof (serveAll_Reach l matchId s Hs) as Hr.
    split; [done|]. by apply Reach_Inv.
  - intros s Hr. destruct (Reach_served s Hr) as [l Hl]. eauto.
Qed.

End Catalog.

(** ** The theorems at work on the sample catalog *)

Lemma sample_stageIds_truthy : "" ∉ sample_stageIds.
Proof. apply (bool_decide_unpack _). vm_compute. exact I. Qed.

Lemma sample_stageIds_NoDup : NoDup sample_stageIds.
Proof. apply (bool_decide_unpack _). vm_compute. exact I. Qed.

(** A G1 state in phase WINNER_PICK, reached by forcing the phase twice. *)
Lemma Reach_forced_twice :
  Reach sample_stageIds
    {| mode := "G1"; phase := WINNER_PICK; bans := []; pick := None;
       history := [mkEntry FORCE_PHASE None WINNER_BAN;
                   mkEntry FORCE_PHASE None LOSER_BAN] |}.
Proof.
  apply (Reach_force sample_stageIds
           (snd (handleForceNextPhase (createInitialState None)))).
  exact (Reach_force sample_stageIds _ (Reach_init _)).
Qed.

(** The state after one ban in the lazily created state satisfies the
    invariant. *)
Lemma reachable_state_invariant_witness :
  Reach sample_stageIds
    (snd (handleBan sample_stageIds 0 (createInitialState None)
            (Some "battlefield"))) ∧
  StateInv
    (snd (handleBan sample_stageIds 0 (createInitialState None)
            (Some "battlefield"))).
Proof.
  split.
  - exact (Reach_ban sample_stageIds 0 _ (Some "battlefield") (Reach_init _)).
  - exact (proj1 (reachable_state_invariant sample_stageIds _
                    (Reach_ban sample_stageIds 0 _ (Some "battlefield")
                       (Reach_init _)))).
Defined.

(** Picking in the forced WINNER_PICK state and undoing gives that state
    back. *)
Lemma undo_inverts_last_operation_witness :
  let s := {| mode := "G1"; phase := WINNER_PICK; bans := []; pick := None;
              history := [mkEntry FORCE_PHASE None WINNER_BAN;
                          mkEntry FORCE_PHASE None LOSER_BAN] |} in
  ok (fst (handlePick sample_stageIds 5 s (Some "kalos"))) = true ∧
  handleUndo (snd (handlePick sample_stageIds 5 s (Some "kalos"))) = (success, s).
Proof.
  intros s. split; [reflexivity|].
  refine (proj1 (proj1 (proj2
    (undo_inverts_last_operation sample_stageIds sample_stageIds_truthy s
       Reach_forced_twice)) 5 (Some "kalos") _ _ _ _)).
  - reflexivity.
  - reflexivity.
Defined.

(** The scenario of the README's 3-4-1 striking and of a later game. *)
Lemma fresh_match_phase_flow_witness :
  (∃ s3 s7 s8,
     banEach sample_stageIds 0 ["battlefield"; "smashville"; "ps2"]
       (createInitialState (Some "G1")) = Some s3 ∧
     banEach sample_stageIds 0
       ["kalos"; "town-city"; "yoshis-story"; "hollow-bastion"] s3 = Some s7 ∧
     snd (handlePick sample_stageIds 0 s7 (Some "final-destination")) = s8 ∧
     phase s3 = LOSER_BAN ∧ phase s7 = WINNER_PICK ∧ phase s8 = DONE) ∧
  (∃ s3 s4,
     banEach sample_stageIds 0 ["battlefield"; "smashville"; "ps2"]
       (createInitialState (Some "G2PLUS")) = Some s3 ∧
     snd (handlePick sample_stageIds 0 s3 (Some "kalos")) = s4 ∧
     phase s3 = LOSER_PICK ∧ phase s4 = DONE).
Proof.
  destruct (fresh_match_phase_flow sample_stageIds sample_stageIds_truthy 0)
    as [Hg1 Hg2].
  split.
  - eexists _, _, _. split_and!; [vm_compute; reflexivity.. | | |];
      eapply (Hg1 ["battlefield"; "smashville"; "ps2"]
                ["kalos"; "town-city"; "yoshis-story"; "hollow-bastion"]
                "final-destination");
      vm_compute; reflexivity.
  - eexists _, _. split_and!; [vm_compute; reflexivity.. | |];
      eapply (Hg2 ["battlefield"; "smashville"; "ps2"] "kalos");
      vm_compute; reflexivity.
Defined.

(** In WINNER_BAN with three bans already made, a fourth ban runs out of
    quota. *)
Lemma ban_quota_exhausted_witness :
  let s := {| mode := "G1"; phase := WINNER_BAN;
              bans := ["battlefield"; "smashville"; "ps2"]; pick := None;
              history := [] |} in
  fst (handleBan sample_stageIds 0 s (Some "kalos")) = failure NoBansRemaining.
Proof.
  intros s.
  refine (proj2 (proj1 (ban_quota_exhausted sample_stageIds 0 s "kalos" _ _ _ _)) _).
  - apply (bool_decide_unpack _). vm_compute. exact I.
  - apply (bool_decide_unpack _). vm_compute. exact I.
  - left. reflexivity.
  - intros _. reflexivity.
  - left. split; [reflexivity | simpl; lia].
Defined.

(** An UNDO message for a match nobody has touched fails: the requester
    gets the error, the room gets nothing. *)
Lemma failure_is_atomic_witness :
  onAction sample_stageIds 0 None (mkMsg (Some "SET1") (Some "UNDO") None None) ∅ =
    ({["SET1" := createInitialState None]},
     [SocketActionResult (Some "UNDO") false (Some NothingToUndo)]).
Proof.
  pose proof (proj2 (proj2 (proj2 (proj2 (proj2
    (failure_is_atomic sample_stageIds)))))) as Hdispatch.
  destruct (Hdispatch 0 None (mkMsg (Some "SET1") (Some "UNDO") None None) ∅)
    as [Heq _].
  - reflexivity.
  - rewrite Heq. reflexivity.
Defined.

Lemma force_next_phase_cases_witness :
  handleForceNextPhase (createInitialState None) =
    (success,
     {| mode := "G1"; phase := LOSER_BAN; bans := []; pick := None;
        history := [mkEntry FORCE_PHASE None WINNER_BAN] |}).
Proof.
  refine (proj2 (force_next_phase_cases (createInitialState None)) _ _);
    reflexivity.
Defined.

(** A banned stage is refused in phase DONE as it is anywhere else. *)
Lemma banned_id_rejected_in_every_phase_witness :
  let s := {| mode := "G2PLUS"; phase := LOSER_PICK;
              bans := ["battlefield"; "smashville"; "ps2"]; pick := None;
              history := [] |} in
  fst (handleBan sample_stageIds 0 (set_phase DONE s) (Some "ps2")) =
    failure (StageAlreadyBanned (Some "ps2")) ∧
  fst (handlePick sample_stageIds 0 (set_phase DONE s) (Some "ps2")) =
    failure (CannotPickBanned (Some "ps2")).
Proof.
  intros s.
  destruct (banned_id_rejected_in_every_phase sample_stageIds 0 s "ps2" DONE)
    as [Hb Hp].
  - apply (bool_decide_unpack _). vm_compute. exact I.
  - apply (bool_decide_unpack _). vm_compute. exact I.
  - by rewrite Hb, Hp.
Defined.

Lemma set_mode_cases_witness :
  handleSetMode (createInitialState None) (Some "G3") =
    failure (InvalidMode (Some "G3")) ∧
  handleSetMode (createInitialState None) (Some "G2PLUS") =
    success_newState (createInitialState (Some "G2PLUS")).
Proof.
  destruct (set_mode_cases sample_stageIds) as (Hbad & Hgood & _).
  split.
  - apply Hbad; discriminate.
  - apply (Hgood _ "G2PLUS"). right. reflexivity.
Defined.

Lemma available_is_catalog_minus_bans_witness :
  let s := {| mode := "G1"; phase := WINNER_BAN; bans := ["ps2"; "battlefield"];
              pick := None; history := [] |} in
  getAvailableStages sample_stageIds s =
    ["small-battlefield"; "final-destination"; "smashville"; "town-city";
     "yoshis-story"; "hollow-bastion"; "kalos"] ∧
  length (getAvailableStages sample_stageIds s) = (9 - 2)%nat.
Proof.
  intros s.
  destruct (available_is_catalog_minus_bans sample_stageIds
              sample_stageIds_NoDup s) as (Hdiff & _ & _ & _ & Hlen).
  - apply (bool_decide_unpack _). vm_compute. exact I.
  - intros id Hin.
    repeat (apply elem_of_cons in Hin as [-> | Hin];
            [apply (bool_decide_unpack _); vm_compute; exact I|]).
    by apply elem_of_nil in Hin.
  - split; [rewrite Hdiff; reflexivity | exact Hlen].
Defined.

(** ** Two runs of the server *)

(** Game 1 on match SET1: three bans, four bans, a pick and an undo, with
    the phase, the remaining bans and the pick read off the derived view
    after each stage. *)
Example run_game_one :
  let send ty id := Action 0 None (mkMsg (Some "SET1") (Some ty) id None) in
  let view l :=
    let v := fst (getComputedState sample_stageIds "SET1"
                    (serveAll sample_stageIds l)) in
    (c_phase v, bansRemaining v, c_pick v) in
  let bans3 := [send "BAN" (Some "battlefield"); send "BAN" (Some "smashville");
                send "BAN" (Some "ps2")] in
  let bans7 := bans3 ++
               [send "BAN" (Some "kalos"); send "BAN" (Some "town-city");
                send "BAN" (Some "yoshis-story");
                send "BAN" (Some "hollow-bastion")] in
  let picked := bans7 ++ [send "PICK" (Some "final-destination")] in
  view bans3 = (LOSER_BAN, 4, None) ∧
  view bans7 = (WINNER_PICK, 0, None) ∧
  view picked = (DONE, 0, Some "final-destination") ∧
  view (picked ++ [send "UNDO" None]) = (WINNER_PICK, 0, None).
Proof. vm_compute. done. Qed.

(** A pick sent while the match is in WINNER_BAN: the requester is told
    "Cannot pick in phase: WINNER_BAN", nothing is broadcast and the
    match keeps its state. *)
Example pick_in_WINNER_BAN :
  let before := serveAll sample_stageIds [Join (Some "SET1")] in
  onAction sample_stageIds 0 (Some "SET1")
    (mkMsg None (Some "PICK") (Some "kalos") None) before =
  (before,
   [SocketActionResult (Some "PICK") false (Some (CannotPickInPhase WINNER_BAN))]) ∧
  error_message (CannotPickInPhase WINNER_BAN) = "Cannot pick in phase: WINNER_BAN".
Proof. vm_compute. done. Qed.

(** ** The further properties at work on the sample catalog *)

Lemma Reach_sample_three_bans : Reach sample_stageIds sample_three_bans.
Proof.
  apply (serveAll_Reach sample_stageIds
           [Action 1 None (mkMsg None (Some "BAN") (Some "battlefield") None);
            Action 2 None (mkMsg None (Some "BAN") (Some "smashville") None);
            Action 3 None (mkMsg None (Some "BAN") (Some "ps2") None)]
           "default").
  vm_compute. reflexivity.
Qed.

Lemma Reach_sample_done : Reach sample_stageIds sample_done.
Proof.
  apply (serveAll_Reach sample_stageIds
           [Action 0 None (mkMsg None (Some "SET_MODE") None (Some "G2PLUS"));
            Action 1 None (mkMsg None (Some "BAN") (Some "battlefield") None);
            Action 2 None (mkMsg None (Some "BAN") (Some "smashville") None);
            Action 3 None (mkMsg None (Some "BAN") (Some "ps2") None);
            Action 4 None (mkMsg None (Some "PICK") (Some "kalos") None)]
           "default").
  vm_compute. reflexivity.
Qed.

Lemma done_is_final_witness :
  ok (fst (handleBan sample_stageIds 9 sample_done (Some "town-city"))) = false ∧
  ok (fst (handlePick sample_stageIds 9 sample_done (Some "town-city"))) = false ∧
  handleForceNextPhase sample_done = (failure CannotAdvancePhase, sample_done).
Proof.
  destruct (done_is_final sample_stageIds 9 sample_done (Some "town-city") eq_refl)
    as (Hb & _ & Hp & _ & Hf).
  by split_and!.
Defined.

Lemma phase_belongs_to_mode_witness :
  mode sample_done = "G2PLUS" ∧ phase sample_done ≠ LOSER_BAN ∧
  phase sample_done ≠ WINNER_PICK.
Proof.
  destruct (phase_belongs_to_mode sample_stageIds sample_done Reach_sample_done)
    as ([[Hm _] | Hg2] & _); [discriminate Hm | exact Hg2].
Defined.

Lemma force_succeeds_unless_done_witness :
  ok (fst (handleForceNextPhase sample_three_bans)) = true ∧
  phase (snd (handleForceNextPhase sample_three_bans)) = WINNER_PICK.
Proof.
  destruct (force_succeeds_unless_done sample_stageIds sample_three_bans
              Reach_sample_three_bans) as (Hiff & _).
  split; [by apply Hiff | reflexivity].
Defined.

Lemma bans_and_pick_in_catalog_witness :
  "kalos" ∈ sample_stageIds ∧ "kalos" ∈ getAvailableStages sample_stageIds sample_done.
Proof.
  destruct (bans_and_pick_in_catalog sample_stageIds sample_done Reach_sample_done)
    as [_ Hp].
  by apply Hp.
Defined.

Lemma history_records_bans_witness :
  bans sample_done = bannedInHistory (history sample_done) ∧
  length (filter (λ e, action e = BAN) (history sample_done)) = 3%nat.
Proof.
  exact (history_records_bans sample_stageIds sample_done Reach_sample_done).
Defined.

Lemma bans_remaining_in_reach_witness :
  1 ≤ getBansRemaining sample_three_bans ≤ 7 ∧
  getBansRemaining sample_done = 0.
Proof.
  destruct (bans_remaining_in_reach sample_stageIds sample_three_bans
              Reach_sample_three_bans) as (_ & Hl & _).
  destruct (bans_remaining_in_reach sample_stageIds sample_done
              Reach_sample_done) as (_ & _ & Hn & _).
  split; [by apply Hl | apply Hn; by intros [? | ?]].
Defined.

Lemma pick_only_in_done_witness :
  is_Some (pick sample_done) ∧ phase sample_done = DONE.
Proof.
  split; [by eexists|].
  destruct (pick_only_in_done sample_stageIds sample_stageIds_truthy sample_done
              Reach_sample_done) as (Hd & _).
  apply Hd. by eexists.
Defined.

Lemma available_stage_is_accepted_witness :
  "kalos" ∈ getAvailableStages sample_stageIds sample_three_bans ∧
  ok (fst (handleBan sample_stageIds 4 sample_three_bans (Some "kalos"))) = true.
Proof.
  assert ("kalos" ∈ getAvailableStages sample_stageIds sample_three_bans) as Hav.
  { apply (bool_decide_unpack _). vm_compute. exact I. }
  split; [exact Hav|].
  destruct (available_stage_is_accepted sample_stageIds sample_stageIds_truthy
              4 sample_three_bans "kalos" Reach_sample_three_bans Hav) as [Hb _].
  apply Hb. by right.
Defined.

Lemma undo_everything_witness :
  undoTimes 4 sample_done = Some (createInitialState (Some "G2PLUS")) ∧
  undoTimes 5 sample_done = None.
Proof.
  exact (undo_everything sample_stageIds sample_stageIds_truthy sample_done
           Reach_sample_done).
Defined.

Lemma reachable_without_undo_witness : FReach sample_stageIds sample_done.
Proof.
  apply (reachable_without_undo sample_stageIds sample_stageIds_truthy).
  exact Reach_sample_done.
Defined.

Lemma phase_derived_from_counts_witness :
  phase sample_three_bans = LOSER_BAN ∧
  phase sample_three_bans = derivedPhase sample_three_bans.
Proof.
  destruct (phase_derived_from_counts sample_stageIds sample_stageIds_truthy
              sample_three_bans Reach_sample_three_bans) as (Hd & Hrest).
  - repeat constructor; discriminate.
  - split; [|exact Hd].
    destruct (Hrest eq_refl) as (_ & _ & Hl & _). apply Hl; [reflexivity|].
    simpl. lia.
Defined.

Lemma success_is_broadcast_witness :
  snd (onAction sample_stageIds 7 None
         (mkMsg None (Some "BAN") (Some "kalos") None)
         {["default" := sample_three_bans]}) =
  [SocketActionResult (Some "BAN") true None;
   RoomStateUpdate "default"
     (computed sample_stageIds "default"
        (snd (handleBan sample_stageIds 7 sample_three_bans (Some "kalos"))));
   RoomEventPush "default" (mkEvent BAN (Some "kalos") 7)].
Proof.
  destruct (success_is_broadcast sample_stageIds 7 None
              (mkMsg None (Some "BAN") (Some "kalos") None)
              {["default" := sample_three_bans]}) as (s' & Hs' & ->).
  - reflexivity.
  - vm_compute in Hs'. injection Hs' as <-. reflexivity.
Defined.

Lemma click_is_accepted_witness :
  handleStageClick "SET1"
    (Some (computed sample_stageIds "SET1" sample_three_bans)) "kalos" =
    EmitAction (mkMsg (Some "SET1") (Some "BAN") (Some "kalos") None) ∧
  ok (fst (runAction sample_stageIds 4 "SET1"
             (mkMsg (Some "SET1") (Some "BAN") (Some "kalos") None)
             {["SET1" := sample_three_bans]})) = true.
Proof.
  split; [reflexivity|].
  pose proof (click_is_accepted sample_stageIds sample_stageIds_truthy 4 None
                (Some "SET1") sample_three_bans "kalos"
                {["SET1" := sample_three_bans]}) as Hclick.
  destruct Hclick as [_ Hemit].
  - exact Reach_sample_three_bans.
  - apply (bool_decide_unpack _). vm_compute. exact I.
  - reflexivity.
  - exact (proj1 (proj2 (proj2 Hemit))).
Defined.

Lemma reset_keeps_mode_witness :
  mode sample_done = "G2PLUS" ∧
  handleReset "SET1" {["SET1" := sample_done]} =
    (success,
     <["SET1" := {| mode := "G2PLUS"; phase := WINNER_BAN; bans := [];
                    pick := None; history := [] |}]> {["SET1" := sample_done]}) ∧
  snd (handleReset "SET1" {["SET1" := sample_done]}) !! "SET1" =
    Some {| mode := "G2PLUS"; phase := WINNER_BAN; bans := [];
            pick := None; history := [] |} ∧
  snd (handleReset "SET1" {["SET1" := sample_done]}) !! "SET1" ≠
    Some (createInitialState None).
Proof.
  pose proof (proj1 (reset_keeps_mode sample_stageIds) "SET1" sample_done
                {["SET1" := sample_done]} (lookup_singleton_eq _ _))
    as (Heq & _ & Hstored & _).
  split; [reflexivity|]. split; [exact Heq|]. split; [exact Hstored|].
  rewrite Hstored. discriminate.
Defined.

Lemma ban_history_tiles_witness :
  ∃ tiles,
    renderBanHistory true sample_stages
      (Some (computed sample_stageIds "SET1" sample_done)) = Some tiles ∧
    tile_stageId <$> tiles = ["battlefield"; "smashville"; "ps2"; "kalos"] ∧
    tile_kind <$> tiles = [TileBan; TileBan; TileBan; TilePick].
Proof.
  destruct (ban_history_tiles sample_stageIds sample_stages "SET1" sample_done
              eq_refl Reach_sample_done) as (_ & _ & tiles & Hr & Hids & Hkinds & _).
  exists tiles. by split_and!.
Defined.


Lemma ban_succeeds_iff_witness :
  ok (fst (handleBan sample_stageIds 4 sample_three_bans (Some "kalos"))) = true ∧
  bans (snd (handleBan sample_stageIds 4 sample_three_bans (Some "kalos"))) =
    ["battlefield"; "smashville"; "ps2"; "kalos"].
Proof.
  destruct (ban_succeeds_iff sample_stageIds 4 sample_three_bans (Some "kalos"))
    as [Hiff Heffect].
  assert (ok (fst (handleBan sample_stageIds 4 sample_three_bans (Some "kalos")))
          = true) as Hok.
  { apply Hiff. exists "kalos". split_and!; [done | | | done];
      apply (bool_decide_unpack _); vm_compute; exact I. }
  split; [exact Hok|].
  destruct (Heffect Hok) as (id & [= <-] & -> & _). reflexivity.
Defined.

Lemma pick_succeeds_iff_witness :
  ok (fst (handlePick sample_stageIds 4 sample_three_bans (Some "kalos"))) = false.
Proof.
  destruct (pick_succeeds_iff sample_stageIds 4 sample_three_bans (Some "kalos"))
    as [Hiff _].
  destruct (ok (fst (handlePick sample_stageIds 4 sample_three_bans (Some "kalos"))))
    eqn:Hok; [|reflexivity].
  destruct (proj1 Hiff eq_refl) as (id & _ & _ & _ & Hrem). discriminate Hrem.
Defined.

Lemma undo_succeeds_iff_canUndo_witness :
  canUndo (computed sample_stageIds "SET1" sample_done) = true ∧
  phase (snd (handleUndo sample_done)) = LOSER_PICK ∧
  handleUndo (createInitialState None) =
    (failure NothingToUndo, createInitialState None).
Proof.
  destruct (undo_succeeds_iff_canUndo sample_stageIds "SET1" sample_done)
    as (_ & _ & Hpop).
  destruct (undo_succeeds_iff_canUndo sample_stageIds "SET1"
              (createInitialState None)) as (_ & Hempty & _).
  split; [reflexivity|]. split; [|by apply Hempty].
  by destruct (Hpop [mkEntry BAN (Some "battlefield") WINNER_BAN;
                     mkEntry BAN (Some "smashville") WINNER_BAN;
                     mkEntry BAN (Some "ps2") WINNER_BAN]
                 (mkEntry PICK (Some "kalos") LOSER_PICK) eq_refl)
    as (_ & _ & -> & _).
Defined.

Lemma available_after_operations_witness :
  getAvailableStages sample_stageIds
    (snd (handleBan sample_stageIds 4 sample_three_bans (Some "kalos"))) =
  ["small-battlefield"; "final-destination"; "town-city"; "yoshis-story";
   "hollow-bastion"].
Proof.
  destruct (available_after_operations sample_stageIds 4 sample_three_bans
              (Some "kalos")) as (_ & Hban & _).
  destruct Hban as (id & [= <-] & _ & -> & _); reflexivity.
Defined.
